(** * Boxing match engine and move classifier: a shallow embedding

    The development follows [backend/game_logic.py] (the match engine),
    [backend/pose_detection.py] (the classifier behind the network API) and
    [pose-detection/pose_detector.py] (the standalone classifier).

    - Python [float] and numpy [float64] are IEEE 754 binary64 numbers.  They
      are modelled by [spec_float] with precision 53 and maximal exponent
      1024, with the correctly rounded operations of [SpecFloat].
    - Python [int] is [Z].
    - The [players] dictionary keeps its insertion order, and the engine
      iterates over it: it is an association list whose keys are distinct.
    - An exception that leaves a method leaves the mutations made so far in
      place: a computation returns an outcome together with the state reached.
    - Calls to the logger are not modelled. *)

From Stdlib Require Import ZArith List String Ascii Bool Lia.
From Stdlib Require Import Floats.SpecFloat.
Import ListNotations.

Local Open Scope string_scope.
Local Open Scope Z_scope.

(** ** Binary64 arithmetic *)

Definition float : Type := spec_float.

Module F64.

Definition prec : Z := 53.
Definition emax : Z := 1024.

(** Conversion of a Python [int] in an [int * float] product. *)
Definition of_int (n : Z) : float := binary_normalize prec emax n 0 false.

Definition mul : float -> float -> float := SFmul prec emax.
Definition add : float -> float -> float := SFadd prec emax.
Definition sub : float -> float -> float := SFsub prec emax.
Definition div : float -> float -> float := SFdiv prec emax.
Definition sqrt : float -> float := SFsqrt prec emax.
Definition abs : float -> float := SFabs.

(** The fused multiply-add [x * y + z]: the product is exact and the sum is
    rounded once. *)
Definition fma (x y z : float) : float :=
  match x, y with
  | S754_nan, _ | _, S754_nan => S754_nan
  | S754_infinity _, S754_zero _ | S754_zero _, S754_infinity _ => S754_nan
  | S754_infinity sx, S754_infinity sy
  | S754_infinity sx, S754_finite sy _ _
  | S754_finite sx _ _, S754_infinity sy => add (S754_infinity (xorb sx sy)) z
  | S754_zero sx, S754_zero sy
  | S754_zero sx, S754_finite sy _ _
  | S754_finite sx _ _, S754_zero sy => add (S754_zero (xorb sx sy)) z
  | S754_finite sx mx ex, S754_finite sy my ey =>
      match z with
      | S754_nan => S754_nan
      | S754_infinity _ => z
      | S754_zero _ => mul x y
      | S754_finite sz mz ez =>
          let ep := ex + ey in
          let e := Z.min ep ez in
          binary_normalize prec emax
            (cond_Zopp (xorb sx sy) (Zpos (fst (shl_align (mx * my) ep e)))
             + cond_Zopp sz (Zpos (fst (shl_align mz ez e))))
            e false
      end
  end.

(** [a < b], [a <= b], [a == b]; [a > b] is [ltb b a], [a >= b] is [leb b a]. *)
Definition ltb : float -> float -> bool := SFltb.
Definition leb : float -> float -> bool := SFleb.
Definition eqb : float -> float -> bool := SFeqb.
Definition gtb (a b : float) : bool := ltb b a.
Definition geb (a b : float) : bool := leb b a.

(** A decimal literal [num / den] denotes the binary64 number nearest to
    the quotient. *)
Definition literal (num den : Z) : float := div (of_int num) (of_int den).

Definition zero : float := S754_zero false.
Definition one : float := Eval vm_compute in of_int 1.
Definition f0_2 : float := Eval vm_compute in literal 2 10.
Definition f0_3 : float := Eval vm_compute in literal 3 10.
Definition f0_4 : float := Eval vm_compute in literal 4 10.
Definition f0_5 : float := Eval vm_compute in literal 5 10.
Definition f0_6 : float := Eval vm_compute in literal 6 10.
Definition f0_7 : float := Eval vm_compute in literal 7 10.
Definition f0_8 : float := Eval vm_compute in literal 8 10.
Definition f0_9 : float := Eval vm_compute in literal 9 10.

(** The signed integer [(-1)^s * m]. *)
Definition signed (s : bool) (m : positive) : Z := cond_Zopp s (Zpos m).

(** The integer part of [z * 2^e], rounded toward zero and toward minus
    infinity. *)
Definition scale_trunc (z e : Z) : Z :=
  if 0 <=? e then z * 2 ^ e else Z.quot z (2 ^ (- e)).

Definition scale_floor (z e : Z) : Z :=
  if 0 <=? e then z * 2 ^ e else Z.div z (2 ^ (- e)).

(** Python's [int(x)]: truncation toward zero; [None] on NaN and the
    infinities, where Python raises. *)
Definition trunc (x : float) : option Z :=
  match x with
  | S754_zero _ => Some 0
  | S754_finite s m e => Some (scale_trunc (signed s m) e)
  | S754_infinity _ | S754_nan => None
  end.


(** Python's truth value of a float: [x != 0.0]. *)
Definition truthy (x : float) : bool := negb (eqb x zero).

(** Python's builtin [min(a, b)]: [b] when [b < a], else [a]. *)
Definition min (a b : float) : float := if ltb b a then b else a.

(** The sign bit is clear (NaN has none). *)
Definition sign_clear (x : float) : bool :=
  match x with
  | S754_zero s | S754_infinity s | S754_finite s _ _ => negb s
  | S754_nan => true
  end.

(** A binary64 number: a float in canonical form within the exponent
    range. *)
Definition valid (x : float) : bool := valid_binary prec emax x.

(** A confidence of the data model: a binary64 number in the interval
    from 0 to 1. *)
Definition is_confidence (c : float) : bool :=
  valid c && leb zero c && leb c one.

End F64.

(** ** The match engine, [backend/game_logic.py] *)

Module GameLogic.

Inductive GameState := WAITING | PLAYING | PAUSED | FINISHED.

Inductive MoveType := JAB | CROSS | HOOK | UPPERCUT | BLOCK | DODGE | GUARD.

Definition GameState_eqb (a b : GameState) : bool :=
  match a, b with
  | WAITING, WAITING | PLAYING, PLAYING | PAUSED, PAUSED
  | FINISHED, FINISHED => true
  | _, _ => false
  end.

(** The values of the enumeration [MoveType]. *)
Definition MoveType_value (m : MoveType) : string :=
  match m with
  | JAB => "jab"
  | CROSS => "cross"
  | HOOK => "hook"
  | UPPERCUT => "uppercut"
  | BLOCK => "block"
  | DODGE => "dodge"
  | GUARD => "guard"
  end.

Definition all_moves : list MoveType :=
  [JAB; CROSS; HOOK; UPPERCUT; BLOCK; DODGE; GUARD].

(** [MoveType(value)]: the member whose value is equal to [value], and
    [None] where Python raises [ValueError]. *)
Definition MoveType_of_value (value : string) : option MoveType :=
  find (fun m => String.eqb (MoveType_value m) value) all_moves.

Record Player := mkPlayer {
  id : string;
  name : string;
  health : Z;
  score : Z;
  last_move : option string;
  last_move_time : option float;
  is_blocking : bool;
  is_dodging : bool
}.

(** [Player(id=player_id, name=name)] with the defaults of the dataclass. *)
Definition new_Player (player_id nm : string) : Player :=
  mkPlayer player_id nm 100 0 None None false false.

Definition set_health (h : Z) (p : Player) : Player :=
  mkPlayer (id p) (name p) h (score p) (last_move p) (last_move_time p)
           (is_blocking p) (is_dodging p).

Definition set_score (s : Z) (p : Player) : Player :=
  mkPlayer (id p) (name p) (health p) s (last_move p) (last_move_time p)
           (is_blocking p) (is_dodging p).

Definition set_last_move (m : option string) (p : Player) : Player :=
  mkPlayer (id p) (name p) (health p) (score p) m (last_move_time p)
           (is_blocking p) (is_dodging p).

Definition set_last_move_time (t : option float) (p : Player) : Player :=
  mkPlayer (id p) (name p) (health p) (score p) (last_move p) t
           (is_blocking p) (is_dodging p).

Definition set_is_blocking (b : bool) (p : Player) : Player :=
  mkPlayer (id p) (name p) (health p) (score p) (last_move p)
           (last_move_time p) b (is_dodging p).

Definition set_is_dodging (b : bool) (p : Player) : Player :=
  mkPlayer (id p) (name p) (health p) (score p) (last_move p)
           (last_move_time p) (is_blocking p) b.

Record GameAction := mkGameAction {
  player_id : string;
  move_type : string;
  confidence : float;
  timestamp : float
}.

(** *** The dictionary of players *)

Definition dict := list (string * Player).

Definition keys (d : dict) : list string := map fst d.
Definition values (d : dict) : list Player := map snd d.

Fixpoint dict_get (k : string) (d : dict) : option Player :=
  match d with
  | [] => None
  | (k', v) :: rest => if String.eqb k' k then Some v else dict_get k rest
  end.

Definition dict_mem (k : string) (d : dict) : bool :=
  match dict_get k d with Some _ => true | None => false end.

(** [d[k] = v]: an existing key keeps its place, a new key goes last. *)
Fixpoint dict_set (k : string) (v : Player) (d : dict) : dict :=
  match d with
  | [] => [(k, v)]
  | (k', v') :: rest =>
      if String.eqb k' k then (k', v) :: rest
      else (k', v') :: dict_set k v rest
  end.

(** [del d[k]]. *)
Definition dict_del (k : string) (d : dict) : dict :=
  filter (fun kv => negb (String.eqb (fst kv) k)) d.

(** An attribute assignment on the object stored under [k]. *)
Fixpoint dict_modify (k : string) (f : Player -> Player) (d : dict) : dict :=
  match d with
  | [] => []
  | (k', v) :: rest =>
      if String.eqb k' k then (k', f v) :: rest
      else (k', v) :: dict_modify k f rest
  end.

(** An attribute assignment on the first object, in iteration order, that
    satisfies [p]. *)
Fixpoint modify_first (p : Player -> bool) (f : Player -> Player) (d : dict)
  : dict :=
  match d with
  | [] => []
  | (k, v) :: rest =>
      if p v then (k, f v) :: rest else (k, v) :: modify_first p f rest
  end.

(** An attribute assignment on the object at position [i]. *)
Fixpoint modify_nth (i : nat) (f : Player -> Player) (d : dict) {struct d}
  : dict :=
  match d, i with
  | [], _ => []
  | (k, v) :: rest, O => (k, f v) :: rest
  | kv :: rest, S j => kv :: modify_nth j f rest
  end.

(** An attribute assignment on every object. *)
Definition modify_all (f : Player -> Player) (d : dict) : dict :=
  map (fun kv => (fst kv, f (snd kv))) d.

(** *** The engine state *)

Record BoxingGame := mkBoxingGame {
  state : GameState;
  players : dict;
  round_time : Z;
  current_round : Z;
  max_rounds : Z;
  game_start_time : option float;
  last_update_time : option float
}.

(** [BoxingGame.__init__]. *)
Definition init : BoxingGame :=
  mkBoxingGame WAITING [] 180 1 3 None None.

Definition set_state (s : GameState) (g : BoxingGame) : BoxingGame :=
  mkBoxingGame s (players g) (round_time g) (current_round g) (max_rounds g)
               (game_start_time g) (last_update_time g).

Definition set_players (d : dict) (g : BoxingGame) : BoxingGame :=
  mkBoxingGame (state g) d (round_time g) (current_round g) (max_rounds g)
               (game_start_time g) (last_update_time g).

Definition set_current_round (r : Z) (g : BoxingGame) : BoxingGame :=
  mkBoxingGame (state g) (players g) (round_time g) r (max_rounds g)
               (game_start_time g) (last_update_time g).

Definition set_game_start_time (t : option float) (g : BoxingGame)
  : BoxingGame :=
  mkBoxingGame (state g) (players g) (round_time g) (current_round g)
               (max_rounds g) t (last_update_time g).

Definition set_last_update_time (t : option float) (g : BoxingGame)
  : BoxingGame :=
  mkBoxingGame (state g) (players g) (round_time g) (current_round g)
               (max_rounds g) (game_start_time g) t.

(** [self.move_damage]. *)
Definition move_damage (m : MoveType) : Z :=
  match m with
  | JAB => 10
  | CROSS => 15
  | HOOK => 20
  | UPPERCUT => 25
  | BLOCK | DODGE | GUARD => 0
  end.

(** [self.move_effectiveness]. *)
Definition move_effectiveness (m : MoveType) : float :=
  match m with
  | JAB => F64.f0_3
  | CROSS => F64.f0_5
  | HOOK => F64.f0_7
  | UPPERCUT => F64.f0_8
  | BLOCK | DODGE | GUARD => F64.zero
  end.

(** *** Exceptions and the state monad of the methods *)

Inductive exn :=
  | ValueError_not_a_valid_MoveType (value : string)
  | ValueError_need_at_least_1_player
  | ValueError_cannot_convert_float_NaN_to_integer
  | OverflowError_cannot_convert_float_infinity_to_integer.

Inductive outcome (A : Type) :=
  | Ret (a : A)
  | Raise (e : exn).

Arguments Ret {A} a.
Arguments Raise {A} e.

Definition M (A : Type) : Type := BoxingGame -> outcome A * BoxingGame.

Definition ret {A} (a : A) : M A := fun g => (Ret a, g).

Definition raise {A} (e : exn) : M A := fun g => (Raise e, g).

Definition bind {A B} (c : M A) (k : A -> M B) : M B :=
  fun g =>
    match c g with
    | (Ret a, g') => k a g'
    | (Raise e, g') => (Raise e, g')
    end.

Definition get : M BoxingGame := fun g => (Ret g, g).

Definition modify (f : BoxingGame -> BoxingGame) : M unit :=
  fun g => (Ret tt, f g).

Definition lift {A} (o : outcome A) : M A := fun g => (o, g).

Notation "x <- c ;; k" := (bind c (fun x => k))
  (at level 61, c at next level, right associativity).
Notation "c ;; k" := (bind c (fun _ => k))
  (at level 61, right associativity).

Definition modify_players (f : dict -> dict) : M unit :=
  modify (fun g => set_players (f (players g)) g).

(** [int(x)] with its exceptions. *)
Definition int_of_float (x : float) : outcome Z :=
  match F64.trunc x with
  | Some n => Ret n
  | None =>
      match x with
      | S754_nan => Raise ValueError_cannot_convert_float_NaN_to_integer
      | _ => Raise OverflowError_cannot_convert_float_infinity_to_integer
      end
  end.

(** *** The methods *)

(** [get_state]: the snapshot holds every field of the state. *)
Definition get_state : M BoxingGame := get.

(** [get_score]: the dictionary comprehension stores the score of each
    player under the id of the object, in iteration order. *)
Fixpoint score_set (k : string) (v : Z) (d : list (string * Z))
  : list (string * Z) :=
  match d with
  | [] => [(k, v)]
  | (k', v') :: rest =>
      if String.eqb k' k then (k', v) :: rest
      else (k', v') :: score_set k v rest
  end.

Definition get_score (g : BoxingGame) : list (string * Z) :=
  fold_left (fun acc p => score_set (id p) (score p) acc)
            (values (players g)) [].

Definition add_player (pid nm : string) : M Player :=
  let player := new_Player pid nm in
  modify_players (dict_set pid player) ;;
  ret player.

Definition remove_player (pid : string) : M bool :=
  g <- get ;;
  if dict_mem pid (players g) then
    modify_players (dict_del pid) ;;
    ret true
  else ret false.

Definition reset_player (p : Player) : Player :=
  set_is_dodging false
    (set_is_blocking false
       (set_last_move None (set_score 0 (set_health 100 p)))).

Definition start_game (now : float) : M BoxingGame :=
  g <- get ;;
  if Z.of_nat (List.length (players g)) <? 1 then
    raise ValueError_need_at_least_1_player
  else
    modify (set_state PLAYING) ;;
    modify (set_game_start_time (Some now)) ;;
    modify (set_current_round 1) ;;
    modify_players (modify_all reset_player) ;;
    get_state.

Definition pause_game : M BoxingGame :=
  modify (set_state PAUSED) ;;
  get_state.

Definition resume_game : M BoxingGame :=
  g <- get ;;
  (if GameState_eqb (state g) PAUSED then modify (set_state PLAYING)
   else ret tt) ;;
  get_state.

Definition end_game : M BoxingGame :=
  modify (set_state FINISHED) ;;
  get_state.

Definition reset : M unit :=
  modify (set_state WAITING) ;;
  modify_players (fun _ => []) ;;
  modify (set_current_round 1) ;;
  modify (set_game_start_time None) ;;
  modify (set_last_update_time None).

(** [_get_opponent]: the key and the object of the first other player. *)
Definition _get_opponent (pid : string) (g : BoxingGame)
  : option (string * Player) :=
  if Nat.eqb (List.length (players g)) 1 then None
  else
    match find (fun k => negb (String.eqb k pid)) (keys (players g)) with
    | Some opponent_id =>
        (* [if opponent_id]: the empty string is false *)
        if String.eqb opponent_id "" then None
        else
          match dict_get opponent_id (players g) with
          | Some opponent => Some (opponent_id, opponent)
          | None => None
          end
    | None => None
    end.

Definition _calculate_damage (mt : MoveType) (conf : float)
  (opponent : Player) : outcome Z :=
  let base_damage := move_damage mt in
  match int_of_float (F64.mul (F64.of_int base_damage) conf) with
  | Raise e => Raise e
  | Ret damage =>
      let blocked :=
        if is_blocking opponent then
          int_of_float (F64.mul (F64.of_int damage) (move_effectiveness mt))
        else Ret damage in
      match blocked with
      | Raise e => Raise e
      | Ret damage =>
          let damage := if is_dodging opponent then 0 else damage in
          Ret (Z.max 0 damage)
      end
  end.

(** [_apply_damage] on the object of the opponent. *)
Definition _apply_damage (damage : Z) (p : Player) : Player :=
  set_health (Z.max 0 (health p - damage)) p.

Definition is_defensive (mt : MoveType) : bool :=
  match mt with BLOCK | DODGE | GUARD => true | _ => false end.

Definition is_offensive (mt : MoveType) : bool :=
  match mt with JAB | CROSS | HOOK | UPPERCUT => true | _ => false end.

Definition _process_single_action (action : GameAction) : M unit :=
  g <- get ;;
  if negb (dict_mem (player_id action) (players g)) then ret tt
  else
    let pid := player_id action in
    match MoveType_of_value (move_type action) with
    | None => raise (ValueError_not_a_valid_MoveType (move_type action))
    | Some mt =>
        modify_players (dict_modify pid
          (fun p => set_last_move_time (Some (timestamp action))
                      (set_last_move (Some (move_type action)) p))) ;;
        if is_defensive mt then
          match mt with
          | BLOCK =>
              modify_players (dict_modify pid
                (fun p => set_is_dodging false (set_is_blocking true p)))
          | DODGE =>
              modify_players (dict_modify pid
                (fun p => set_is_blocking false (set_is_dodging true p)))
          | _ =>
              modify_players (dict_modify pid
                (fun p => set_is_dodging false (set_is_blocking false p)))
          end
        else if is_offensive mt then
          g1 <- get ;;
          match _get_opponent pid g1 with
          | None => ret tt
          | Some (opponent_id, opponent) =>
              damage <- lift (_calculate_damage mt (confidence action)
                                opponent) ;;
              modify_players (dict_modify opponent_id
                                (_apply_damage damage)) ;;
              if 0 <? damage then
                modify_players (dict_modify pid
                  (fun p => set_score (score p + damage) p))
              else ret tt
          end
        else ret tt
    end.

Definition _handle_knockout (knocked_out_player : Player) : M unit :=
  modify_players (modify_first
    (fun p => negb (String.eqb (id p) (id knocked_out_player)))
    (fun p => set_score (score p + 50) p)) ;;
  modify (set_state FINISHED).

(** The sort key [(p.health, p.score)] and the order of Python tuples. *)
Definition sort_key (p : Player) : Z * Z := (health p, score p).

Definition key_leb (a b : Z * Z) : bool :=
  (fst a <? fst b) || ((fst a =? fst b) && (snd a <=? snd b)).

(** A stable ascending insertion sort of objects tagged by their position. *)
Fixpoint insert_sorted (x : nat * Player) (l : list (nat * Player))
  : list (nat * Player) :=
  match l with
  | [] => [x]
  | y :: rest =>
      if key_leb (sort_key (snd x)) (sort_key (snd y)) then x :: l
      else y :: insert_sorted x rest
  end.

Definition sort_ascending (l : list (nat * Player)) : list (nat * Player) :=
  fold_right insert_sorted [] l.

(** [list.sort(key=..., reverse=True)]: the list is reversed, sorted by
    a stable ascending sort, and reversed again. *)
Definition sort_reverse (l : list (nat * Player)) : list (nat * Player) :=
  rev (sort_ascending (rev l)).

Definition enumerate (l : list Player) : list (nat * Player) :=
  combine (seq 0 (List.length l)) l.

Definition _handle_round_end (now : float) : M unit :=
  g <- get ;;
  let players_list := enumerate (values (players g)) in
  (if 2 <=? Z.of_nat (List.length players_list) then
     match sort_reverse players_list with
     | (winner, _) :: _ =>
         modify_players (modify_nth winner
                           (fun p => set_score (score p + 25) p))
     | [] => ret tt
     end
   else ret tt) ;;
  modify (fun g => set_current_round (current_round g + 1) g) ;;
  g1 <- get ;;
  if max_rounds g1 <? current_round g1 then modify (set_state FINISHED)
  else
    modify (set_game_start_time (Some now)) ;;
    modify_players (modify_all
      (fun p => set_is_dodging false
                  (set_is_blocking false (set_health 100 p)))).

(** [_check_game_conditions]; the clock is read at [now_check] for the
    elapsed time and at [now_round] when the next round starts. *)
Definition _check_game_conditions (now_check now_round : float) : M unit :=
  g <- get ;;
  match find (fun p => health p <=? 0) (values (players g)) with
  | Some player => _handle_knockout player
  | None =>
      match game_start_time g with
      | Some start =>
          if F64.truthy start then
            let elapsed_time := F64.sub now_check start in
            if F64.geb elapsed_time (F64.of_int (round_time g)) then
              _handle_round_end now_round
            else ret tt
          else ret tt
      | None => ret tt
      end
  end.

(** An element of [actions]: a dictionary with string keys. *)
Record action_data := mkActionData {
  key_player_id : option string;
  key_move : option string;
  key_confidence : option float;
  key_timestamp : option float
}.

Definition process_action_data (current_time : float) (a : action_data)
  : M unit :=
  match key_move a, key_confidence a with
  | Some mv, Some conf =>
      _process_single_action
        (mkGameAction
           (match key_player_id a with Some p => p | None => "player1" end)
           mv conf
           (match key_timestamp a with Some t => t | None => current_time end))
  | _, _ => ret tt
  end.

Fixpoint process_batch (current_time : float) (actions : list action_data)
  : M unit :=
  match actions with
  | [] => ret tt
  | a :: rest =>
      process_action_data current_time a ;;
      process_batch current_time rest
  end.

(** [process_actions]; the three readings of the clock are, in order, the
    one at entry, the one of the time limit check and the one taken when a
    next round starts. *)
Definition process_actions (current_time now_check now_round : float)
  (actions : list action_data) : M BoxingGame :=
  g <- get ;;
  if negb (GameState_eqb (state g) PLAYING) then get_state
  else
    modify (set_last_update_time (Some current_time)) ;;
    process_batch current_time actions ;;
    _check_game_conditions now_check now_round ;;
    get_state.

End GameLogic.


(** ** Poses and detections, common to the two classifiers *)

Module Pose.

(** A row [[x, y, confidence]] of the array of shape (33, 3). *)
Definition row : Type := float * float * float.

Definition x (r : row) : float := fst (fst r).
Definition y (r : row) : float := snd (fst r).

Definition zero_row : row := (F64.zero, F64.zero, F64.zero).

(** The array [pose_data]; a row outside of the array reads as zeros, which
    does not happen with the 33 rows that the classifiers build. *)
Definition pose_data : Type := list row.

Definition zeros : pose_data := repeat zero_row 33.

Definition at_index (p : pose_data) (i : nat) : row := nth i p zero_row.

(** [self.keypoints]. *)
Definition left_shoulder : nat := 11.
Definition right_shoulder : nat := 12.
Definition left_elbow : nat := 13.
Definition right_elbow : nat := 14.
Definition left_wrist : nat := 15.
Definition right_wrist : nat := 16.
Definition left_hip : nat := 23.
Definition right_hip : nat := 24.

(** A detected move: the keys ['move'], ['confidence'] and ['timestamp']. *)
Record detection := mkDetection {
  move : string;
  confidence : float;
  timestamp : float
}.

(** [np.linalg.norm] of a vector of two components: the square root of the
    dot product of the vector with itself.  The dot product accumulates as
    the kernel of numpy does: the first product is rounded, the second one
    is fused with the sum. *)
Definition norm2 (dx dy : float) : float :=
  F64.sqrt (F64.fma dy dy (F64.mul dx dx)).

(** The distance of the first two components of two rows. *)
Definition dist (a b : row) : float :=
  norm2 (F64.sub (x a) (x b)) (F64.sub (y a) (y b)).

End Pose.

(** ** The classifier of the backend, [backend/pose_detection.py] *)

Module BackendPose.

Import Pose.

Definition _calculate_arm_extension (wrist elbow shoulder : row) : float :=
  let wrist_elbow_dist := dist wrist elbow in
  let elbow_shoulder_dist := dist elbow shoulder in
  let total_arm_length := F64.add wrist_elbow_dist elbow_shoulder_dist in
  let straight_dist := dist wrist shoulder in
  if F64.gtb total_arm_length F64.zero then
    let extension := F64.div straight_dist total_arm_length in
    F64.min extension F64.one
  else F64.zero.

Definition _detect_jab (p : pose_data) : float :=
  let left_wrist := at_index p left_wrist in
  let left_elbow := at_index p left_elbow in
  let left_shoulder := at_index p left_shoulder in
  let arm_extension :=
    _calculate_arm_extension left_wrist left_elbow left_shoulder in
  let forward_position := F64.gtb (x left_wrist) (x left_shoulder) in
  if F64.gtb arm_extension F64.f0_8 && forward_position then
    F64.min arm_extension F64.one
  else F64.zero.

Definition _detect_cross (p : pose_data) : float :=
  let right_wrist := at_index p right_wrist in
  let right_elbow := at_index p right_elbow in
  let right_shoulder := at_index p right_shoulder in
  let arm_extension :=
    _calculate_arm_extension right_wrist right_elbow right_shoulder in
  let forward_position := F64.gtb (x right_wrist) (x right_shoulder) in
  if F64.gtb arm_extension F64.f0_8 && forward_position then
    F64.min arm_extension F64.one
  else F64.zero.

Definition _detect_hook (p : pose_data) : float :=
  let left_wrist := at_index p left_wrist in
  let right_wrist := at_index p right_wrist in
  let left_shoulder := at_index p left_shoulder in
  let right_shoulder := at_index p right_shoulder in
  let left_hook :=
    F64.gtb (y left_wrist) (y left_shoulder) &&
    F64.gtb (F64.abs (F64.sub (x left_wrist) (x left_shoulder))) F64.f0_3 in
  let right_hook :=
    F64.gtb (y right_wrist) (y right_shoulder) &&
    F64.gtb (F64.abs (F64.sub (x right_wrist) (x right_shoulder)))
            F64.f0_3 in
  if left_hook || right_hook then F64.f0_8 else F64.zero.

Definition _detect_uppercut (p : pose_data) : float :=
  let left_wrist := at_index p left_wrist in
  let right_wrist := at_index p right_wrist in
  let left_shoulder := at_index p left_shoulder in
  let right_shoulder := at_index p right_shoulder in
  let left_uppercut :=
    F64.ltb (y left_wrist) (y left_shoulder) &&
    F64.gtb (x left_wrist) (F64.sub (x left_shoulder) F64.f0_2) in
  let right_uppercut :=
    F64.ltb (y right_wrist) (y right_shoulder) &&
    F64.gtb (x right_wrist) (F64.sub (x right_shoulder) F64.f0_2) in
  if left_uppercut || right_uppercut then F64.f0_8 else F64.zero.

Definition _detect_block (p : pose_data) : float :=
  let left_wrist := at_index p left_wrist in
  let right_wrist := at_index p right_wrist in
  let left_shoulder := at_index p left_shoulder in
  let right_shoulder := at_index p right_shoulder in
  let left_block :=
    F64.ltb (y left_wrist) (y left_shoulder) &&
    F64.ltb (F64.abs (F64.sub (x left_wrist) (x left_shoulder))) F64.f0_3 in
  let right_block :=
    F64.ltb (y right_wrist) (y right_shoulder) &&
    F64.ltb (F64.abs (F64.sub (x right_wrist) (x right_shoulder)))
            F64.f0_3 in
  if left_block && right_block then F64.f0_9
  else if left_block || right_block then F64.f0_6
  else F64.zero.

Definition _detect_dodge (p : pose_data) : float :=
  let left_hip := at_index p left_hip in
  let right_hip := at_index p right_hip in
  let left_shoulder := at_index p left_shoulder in
  let right_shoulder := at_index p right_shoulder in
  let shoulder_movement :=
    F64.abs (F64.sub (x left_shoulder) (x right_shoulder)) in
  let hip_movement := F64.abs (F64.sub (x left_hip) (x right_hip)) in
  if F64.gtb shoulder_movement F64.f0_4 || F64.gtb hip_movement F64.f0_4
  then F64.f0_7 else F64.zero.

Definition _detect_guard (p : pose_data) : float :=
  let left_wrist := at_index p left_wrist in
  let right_wrist := at_index p right_wrist in
  let left_elbow := at_index p left_elbow in
  let right_elbow := at_index p right_elbow in
  let left_guard :=
    F64.gtb (y left_wrist) (y left_elbow) &&
    F64.gtb (y left_elbow) (F64.sub (y left_wrist) F64.f0_3) in
  let right_guard :=
    F64.gtb (y right_wrist) (y right_elbow) &&
    F64.gtb (y right_elbow) (F64.sub (y right_wrist) F64.f0_3) in
  if left_guard && right_guard then F64.f0_8 else F64.zero.

(** [self.boxing_moves], in the order of the dictionary. *)
Definition boxing_moves : list (string * (pose_data -> float)) :=
  [("jab", _detect_jab); ("cross", _detect_cross); ("hook", _detect_hook);
   ("uppercut", _detect_uppercut); ("block", _detect_block);
   ("dodge", _detect_dodge); ("guard", _detect_guard)].

(** The value under the key ['index']: an [int], as the messages of the
    websocket carry it, or a [float], as the annotation [Dict[str, float]]
    says and as the request model of the endpoint [/pose/detect] delivers
    it. *)
Inductive index_value :=
  | IntIndex (i : Z)
  | FloatIndex (f : float).

(** An element of the list [keypoints]: a dictionary in which any of the
    keys may be missing. *)
Record keypoint := mkKeypoint {
  key_index : option index_value;
  key_x : option float;
  key_y : option float;
  key_confidence : option float
}.

(** [normalized[idx] = row], for an index inside of the array. *)
Fixpoint set_row (i : nat) (r : row) (p : pose_data) {struct p}
  : pose_data :=
  match p, i with
  | [], _ => []
  | _ :: rest, O => r :: rest
  | r0 :: rest, S j => r0 :: set_row j r rest
  end.

(** [0 <= idx < len(normalized)], on an [int] and on a [float]. *)
Definition in_range (idx : index_value) : bool :=
  match idx with
  | IntIndex i => (0 <=? i) && (i <? 33)
  | FloatIndex f => F64.leb F64.zero f && F64.ltb f (F64.of_int 33)
  end.

(** [normalized[idx] = row]: the array takes an [int] as an index; on a
    [float] it raises an [IndexError], which is [None] here. *)
Definition store (idx : index_value) (r : row) (normalized : pose_data)
  : option pose_data :=
  match idx with
  | IntIndex i => Some (set_row (Z.to_nat i) r normalized)
  | FloatIndex _ => None
  end.

(** The loop of [_normalize_keypoints]; [None] is the [IndexError]. *)
Fixpoint normalize_loop (keypoints : list keypoint) (normalized : pose_data)
  : option pose_data :=
  match keypoints with
  | [] => Some normalized
  | kp :: rest =>
      match key_x kp, key_y kp, key_confidence kp with
      | Some vx, Some vy, Some vc =>
          let idx :=
            match key_index kp with Some i => i | None => IntIndex 0 end in
          if in_range idx then
            match store idx (vx, vy, vc) normalized with
            | Some normalized' => normalize_loop rest normalized'
            | None => None
            end
          else normalize_loop rest normalized
      | _, _, _ => normalize_loop rest normalized
      end
  end.

Definition _normalize_keypoints (keypoints : list keypoint)
  : option pose_data :=
  normalize_loop keypoints zeros.

(** The loop of [process_pose] over the moves; [clock n] is the time read
    when the detection of rank [n] is recorded. *)
Fixpoint detect_loop (moves : list (string * (pose_data -> float)))
  (p : pose_data) (clock : nat -> float) (detected_moves : list detection)
  : list detection :=
  match moves with
  | [] => detected_moves
  | (move_name, detect_func) :: rest =>
      let confidence := detect_func p in
      detect_loop rest p clock
        (if F64.gtb confidence F64.f0_5 then
           detected_moves ++
           [mkDetection move_name confidence
                        (clock (List.length detected_moves))]
         else detected_moves)
  end.

(** [process_pose]; an exception inside of the [try] block gives the empty
    list. *)
Definition process_pose (is_ready : bool) (keypoints : list keypoint)
  (clock : nat -> float) : list detection :=
  if negb is_ready then []
  else
    match _normalize_keypoints keypoints with
    | Some pose_data => detect_loop boxing_moves pose_data clock []
    | None => []
    end.

End BackendPose.

(** ** The standalone classifier, [pose-detection/pose_detector.py] *)

Module StandalonePose.

Import Pose.

(** [self.move_thresholds]. *)
Definition move_thresholds : list (string * float) :=
  [("jab", F64.f0_7); ("cross", F64.f0_7); ("hook", F64.f0_6);
   ("uppercut", F64.f0_6); ("block", F64.f0_5); ("dodge", F64.f0_5);
   ("guard", F64.f0_5)].

(** [self.move_thresholds[move_name]]; [None] is the [KeyError]. *)
Fixpoint threshold (move_name : string) (table : list (string * float))
  : option float :=
  match table with
  | [] => None
  | (k, v) :: rest => if String.eqb k move_name then Some v
                      else threshold move_name rest
  end.

Definition _calculate_arm_extension (wrist elbow shoulder : row) : float :=
  let wrist_elbow_dist := dist wrist elbow in
  let elbow_shoulder_dist := dist elbow shoulder in
  let total_arm_length := F64.add wrist_elbow_dist elbow_shoulder_dist in
  let straight_dist := dist wrist shoulder in
  if F64.gtb total_arm_length F64.zero then
    let extension := F64.div straight_dist total_arm_length in
    F64.min extension F64.one
  else F64.zero.

Definition _detect_jab (p : pose_data) : float :=
  let left_wrist := at_index p left_wrist in
  let left_elbow := at_index p left_elbow in
  let left_shoulder := at_index p left_shoulder in
  let arm_extension :=
    _calculate_arm_extension left_wrist left_elbow left_shoulder in
  let forward_position := F64.gtb (x left_wrist) (x left_shoulder) in
  if F64.gtb arm_extension F64.f0_8 && forward_position then
    F64.min arm_extension F64.one
  else F64.zero.

Definition _detect_cross (p : pose_data) : float :=
  let right_wrist := at_index p right_wrist in
  let right_elbow := at_index p right_elbow in
  let right_shoulder := at_index p right_shoulder in
  let arm_extension :=
    _calculate_arm_extension right_wrist right_elbow right_shoulder in
  let forward_position := F64.gtb (x right_wrist) (x right_shoulder) in
  if F64.gtb arm_extension F64.f0_8 && forward_position then
    F64.min arm_extension F64.one
  else F64.zero.

Definition _detect_hook (p : pose_data) : float :=
  let left_wrist := at_index p left_wrist in
  let right_wrist := at_index p right_wrist in
  let left_shoulder := at_index p left_shoulder in
  let right_shoulder := at_index p right_shoulder in
  let left_hook :=
    F64.gtb (y left_wrist) (y left_shoulder) &&
    F64.gtb (F64.abs (F64.sub (x left_wrist) (x left_shoulder))) F64.f0_3 in
  let right_hook :=
    F64.gtb (y right_wrist) (y right_shoulder) &&
    F64.gtb (F64.abs (F64.sub (x right_wrist) (x right_shoulder)))
            F64.f0_3 in
  if left_hook || right_hook then F64.f0_8 else F64.zero.

Definition _detect_uppercut (p : pose_data) : float :=
  let left_wrist := at_index p left_wrist in
  let right_wrist := at_index p right_wrist in
  let left_shoulder := at_index p left_shoulder in
  let right_shoulder := at_index p right_shoulder in
  let left_uppercut :=
    F64.ltb (y left_wrist) (y left_shoulder) &&
    F64.gtb (x left_wrist) (F64.sub (x left_shoulder) F64.f0_2) in
  let right_uppercut :=
    F64.ltb (y right_wrist) (y right_shoulder) &&
    F64.gtb (x right_wrist) (F64.sub (x right_shoulder) F64.f0_2) in
  if left_uppercut || right_uppercut then F64.f0_8 else F64.zero.

Definition _detect_block (p : pose_data) : float :=
  let left_wrist := at_index p left_wrist in
  let right_wrist := at_index p right_wrist in
  let left_shoulder := at_index p left_shoulder in
  let right_shoulder := at_index p right_shoulder in
  let left_block :=
    F64.ltb (y left_wrist) (y left_shoulder) &&
    F64.ltb (F64.abs (F64.sub (x left_wrist) (x left_shoulder))) F64.f0_3 in
  let right_block :=
    F64.ltb (y right_wrist) (y right_shoulder) &&
    F64.ltb (F64.abs (F64.sub (x right_wrist) (x right_shoulder)))
            F64.f0_3 in
  if left_block && right_block then F64.f0_9
  else if left_block || right_block then F64.f0_6
  else F64.zero.

Definition _detect_dodge (p : pose_data) : float :=
  let left_hip := at_index p left_hip in
  let right_hip := at_index p right_hip in
  let left_shoulder := at_index p left_shoulder in
  let right_shoulder := at_index p right_shoulder in
  let shoulder_movement :=
    F64.abs (F64.sub (x left_shoulder) (x right_shoulder)) in
  let hip_movement := F64.abs (F64.sub (x left_hip) (x right_hip)) in
  if F64.gtb shoulder_movement F64.f0_4 || F64.gtb hip_movement F64.f0_4
  then F64.f0_7 else F64.zero.

Definition _detect_guard (p : pose_data) : float :=
  let left_wrist := at_index p left_wrist in
  let right_wrist := at_index p right_wrist in
  let left_elbow := at_index p left_elbow in
  let right_elbow := at_index p right_elbow in
  let left_guard :=
    F64.gtb (y left_wrist) (y left_elbow) &&
    F64.gtb (y left_elbow) (F64.sub (y left_wrist) F64.f0_3) in
  let right_guard :=
    F64.gtb (y right_wrist) (y right_elbow) &&
    F64.gtb (y right_elbow) (F64.sub (y right_wrist) F64.f0_3) in
  if left_guard && right_guard then F64.f0_8 else F64.zero.

(** [self.boxing_moves], in the order of the dictionary. *)
Definition boxing_moves : list (string * (pose_data -> float)) :=
  [("jab", _detect_jab); ("cross", _detect_cross); ("hook", _detect_hook);
   ("uppercut", _detect_uppercut); ("block", _detect_block);
   ("dodge", _detect_dodge); ("guard", _detect_guard)].

(** An element of [keypoints] as [_extract_keypoints] builds it; the key
    ['z'] is not read by the classifier. *)
Record keypoint := mkKeypoint {
  key_index : Z;
  key_x : float;
  key_y : float;
  key_confidence : float
}.

Definition _keypoints_to_array (keypoints : list keypoint) : pose_data :=
  fold_left
    (fun pose kp =>
       let idx := key_index kp in
       if (0 <=? idx) && (idx <? 33) then
         BackendPose.set_row (Z.to_nat idx)
                             (key_x kp, key_y kp, key_confidence kp) pose
       else pose)
    keypoints zeros.

(** The loop of [_detect_boxing_moves] over the moves; [None] is the
    [KeyError] of a move without a threshold. *)
Fixpoint detect_loop (moves : list (string * (pose_data -> float)))
  (p : pose_data) (clock : nat -> float) (detected_moves : list detection)
  : option (list detection) :=
  match moves with
  | [] => Some detected_moves
  | (move_name, detect_func) :: rest =>
      let confidence := detect_func p in
      match threshold move_name move_thresholds with
      | None => None
      | Some limit =>
          detect_loop rest p clock
            (if F64.gtb confidence limit then
               detected_moves ++
               [mkDetection move_name confidence
                            (clock (List.length detected_moves))]
             else detected_moves)
      end
  end.

Definition _detect_boxing_moves (keypoints : list keypoint)
  (clock : nat -> float) : option (list detection) :=
  detect_loop boxing_moves (_keypoints_to_array keypoints) clock [].

End StandalonePose.

(** ** Notions used to state the properties *)

Import GameLogic.

(** The state in which a method leaves the engine, whether it returns or
    raises. *)
Definition exec {A} (c : M A) (g : BoxingGame) : BoxingGame := snd (c g).

(** Two dictionaries with the same keys in the same order, whose objects
    are related by [Q]. *)
Definition pointwise (Q : Player -> Player -> Prop) (d d' : dict) : Prop :=
  Forall2 (fun kv kv' => fst kv = fst kv' /\ Q (snd kv) (snd kv')) d d'.

(** [c] keeps [P], on return and on exception. *)
Definition preserves {A} (P : BoxingGame -> Prop) (c : M A) : Prop :=
  forall g, P g -> P (exec c g).

Definition health_in_range (p : Player) : Prop := 0 <= health p <= 100.

Definition all_health_in_range (g : BoxingGame) : Prop :=
  Forall health_in_range (values (players g)).

(** An update of one object, or of some objects, by a function that keeps
    [P] keeps [P] on all objects. *)
Definition updated_by (P : Player -> Prop) (p p' : Player) : Prop :=
  P p -> P p'.

(** *** The operations of the engine as a transition system *)

Inductive operation :=
  | AddPlayer (pid nm : string)
  | RemovePlayer (pid : string)
  | StartGame (now : float)
  | PauseGame
  | ResumeGame
  | EndGame
  | ProcessActions (current_time now_check now_round : float)
                   (actions : list action_data)
  | GetState
  | Reset.

(** The state after an operation, whether it returned or raised. *)
Definition run (o : operation) (g : BoxingGame) : BoxingGame :=
  match o with
  | AddPlayer pid nm => exec (add_player pid nm) g
  | RemovePlayer pid => exec (remove_player pid) g
  | StartGame now => exec (start_game now) g
  | PauseGame => exec pause_game g
  | ResumeGame => exec resume_game g
  | EndGame => exec end_game g
  | ProcessActions t0 t1 t2 actions => exec (process_actions t0 t1 t2 actions) g
  | GetState => exec get_state g
  | Reset => exec reset g
  end.

(** The state after a sequence of operations, the first one first. *)
Definition run_all (ops : list operation) (g : BoxingGame) : BoxingGame :=
  fold_left (fun g o => run o g) ops g.

(** ** The damage in the words of the specification *)





(** The float [x] has an integer part, which is at most [bound]. *)
Definition integer_part_at_most (bound : Z) (x : float) : bool :=
  match F64.trunc x with Some n => n <=? bound | None => false end.

(** ** Sample states *)

Definition event (pid mv : string) (conf : float) : action_data :=
  mkActionData (Some pid) (Some mv) (Some conf) None.

(** Two registered players and a started match. *)
Definition two_player_game : BoxingGame :=
  exec (start_game F64.one)
    (exec (add_player "P2" "Bo") (exec (add_player "P1" "Al") init)).



(** ** The ranking of a round *)

(** [w] is a largest element of [l], and the one of the least position
    among the largest. *)
Definition best (l : list (nat * Player)) (w : nat * Player) : Prop :=
  In w l /\
  (forall y, In y l -> key_leb (sort_key (snd y)) (sort_key (snd w)) = true) /\
  (forall y, In y l ->
             key_leb (sort_key (snd w)) (sort_key (snd y)) = true ->
             (fst w <= fst y)%nat).

(** Positions that decrease along the list. *)
Fixpoint decreasing (l : list (nat * Player)) : Prop :=
  match l with
  | [] => True
  | x :: rest => Forall (fun y => (fst y < fst x)%nat) rest /\ decreasing rest
  end.


(** [p] does not rank above [w]: the pairs of health and score, compared
    as Python compares tuples. *)
Definition ranks_at_most (p w : Player) : Prop :=
  health p < health w \/ (health p = health w /\ score p <= score w).

(** The object [p] after the end of a round: [bonus] points more; when the
    match goes on, full health and a neutral posture. *)
Definition after_round (finished : bool) (bonus : Z) (p : Player) : Player :=
  mkPlayer (id p) (name p)
           (if finished then health p else 100)
           (score p + bonus)
           (last_move p) (last_move_time p)
           (if finished then is_blocking p else false)
           (if finished then is_dodging p else false).

(** Every field of the state other than [players] is the same. *)
Definition same_frame (g g' : BoxingGame) : Prop :=
  state g' = state g /\ round_time g' = round_time g /\
  current_round g' = current_round g /\ max_rounds g' = max_rounds g /\
  game_start_time g' = game_start_time g /\
  last_update_time g' = last_update_time g.

(** The points that the end of a round gives to the object at position [j]. *)
Definition round_bonus (winner : option nat) (j : nat) : Z :=
  match winner with
  | Some i => if Nat.eqb j i then 25 else 0
  | None => 0
  end.

(** The actor of an element of a batch: the key ['player_id'], and
    ['player1'] when the key is missing. *)
Definition actor_of (a : action_data) : string :=
  match key_player_id a with Some p => p | None => "player1" end.

(** Comparison of strings without regard to the case of ASCII letters. *)
Definition lower_ascii (c : ascii) : ascii :=
  let n := nat_of_ascii c in
  if (Nat.leb 65 n && Nat.leb n 90)%bool then ascii_of_nat (n + 32) else c.

Fixpoint lower (s : string) : string :=
  match s with
  | EmptyString => EmptyString
  | String c rest => String (lower_ascii c) (lower rest)
  end.

Definition eqb_ignore_case (a b : string) : bool :=
  String.eqb (lower a) (lower b).

(** A batch whose second element has a move that is not in the enumeration. *)
Definition batch_with_kick : list action_data :=
  [event "P1" "jab" F64.f0_9; event "P1" "kick" F64.f0_9].

(** The last move recorded for [pid] is the string [s]. *)
Definition last_move_is (pid s : string) (g : BoxingGame) : Prop :=
  option_map last_move (dict_get pid (players g)) = Some (Some s).

(** The posture flags of [pid]: blocking and dodging. *)
Definition posture_of (pid : string) (g : BoxingGame) : option (bool * bool) :=
  option_map (fun p => (is_blocking p, is_dodging p))
             (dict_get pid (players g)).

(** No player of [g] has a lower score in [g']. *)
Definition scores_not_below (g g' : BoxingGame) : Prop :=
  forall k p p',
    dict_get k (players g) = Some p -> dict_get k (players g') = Some p' ->
    score p <= score p'.

(** The operations other than a start, a reset and the registration of an
    id that is already registered. *)
Definition keeps_scores (o : operation) (g : BoxingGame) : Prop :=
  match o with
  | StartGame _ | Reset => False
  | AddPlayer pid _ => dict_mem pid (players g) = false
  | _ => True
  end.

(** A detection without its time. *)
Definition untimed (d : Pose.detection) : string * float :=
  (Pose.move d, Pose.confidence d).

(** A confidence that a detector returns: [0.0], one of the constants
    [0.6], [0.7], [0.8], [0.9], or a float above [0.8]. *)
Definition detector_value (r : float) : Prop :=
  r = F64.zero \/ r = F64.f0_6 \/ r = F64.f0_7 \/ r = F64.f0_8 \/
  r = F64.f0_9 \/ F64.gtb r F64.f0_8 = true.

(** The move [name] with the detector [detect] is recorded by the standalone
    classifier exactly when the backend records it. *)
Definition same_decision (p : Pose.pose_data)
  (backend standalone : string * (Pose.pose_data -> float)) : Prop :=
  fst backend = fst standalone /\
  snd backend p = snd standalone p /\
  exists limit,
    StandalonePose.threshold (fst standalone) StandalonePose.move_thresholds
    = Some limit /\
    F64.gtb (snd standalone p) limit = F64.gtb (snd backend p) F64.f0_5.

(** ** More sample states *)

(** The state that the elements of a batch leave, before the checks at the
    end of the tick. *)
Definition after_batch (t : float) (actions : list action_data)
  (g : BoxingGame) : BoxingGame :=
  exec (process_batch t actions) (set_last_update_time (Some t) g).

(** Four uppercuts of the second player at full confidence. *)
Definition knockout_batch : list action_data :=
  repeat (event "P2" "uppercut" F64.one) 4.

(** One registered player and a started match. *)
Definition solo_game : BoxingGame :=
  exec (start_game F64.one) (exec (add_player "P1" "Al") init).

(** The two player match after a jab of the first player. *)
Definition scored_game : BoxingGame :=
  exec (process_actions (F64.of_int 2) (F64.of_int 2) (F64.of_int 2)
          [event "P1" "jab" F64.f0_9]) two_player_game.

(** ** Well-formed states *)

(** The keys of the players are distinct, and every player is stored under
    its own id. *)
Definition well_keyed (g : BoxingGame) : Prop :=
  NoDup (keys (players g)) /\
  Forall (fun kv => id (snd kv) = fst kv) (players g).

(** The same player at a later time: the id and the name are the same. *)
Definition same_person (p p' : Player) : Prop :=
  id p' = id p /\ name p' = name p.

(** The player has lost no points and gained no health. *)
Definition worn_down (p p' : Player) : Prop :=
  health p' <= health p /\ score p <= score p' /\ same_person p p'.

(** The constants of the engine, and a round counter that is at least 1. *)
Definition sane_rounds (g : BoxingGame) : Prop :=
  round_time g = 180 /\ max_rounds g = 3 /\ 1 <= current_round g.

(** A player whose health is not negative is worn down, to a health that is
    not negative. *)
Definition wears (p p' : Player) : Prop :=
  0 <= health p -> worn_down p p' /\ 0 <= health p'.

(** ** Notions on the classifiers *)

(** The index under which a keypoint of the backend is stored: the key
    ['index'], and the [int] 0 when the key is missing. *)
Definition index_of (kp : BackendPose.keypoint) : BackendPose.index_value :=
  match BackendPose.key_index kp with
  | Some i => i
  | None => BackendPose.IntIndex 0
  end.

(** A keypoint that the backend skips: a coordinate or the confidence is
    missing, or the index is outside of the array. *)
Definition skipped (kp : BackendPose.keypoint) : Prop :=
  BackendPose.key_x kp = None \/ BackendPose.key_y kp = None \/
  BackendPose.key_confidence kp = None \/
  BackendPose.in_range (index_of kp) = false.

(** A keypoint whose index, if it has one, is an [int]. *)
Definition int_indexed (kp : BackendPose.keypoint) : Prop :=
  exists i, index_of kp = BackendPose.IntIndex i.

(** A keypoint of the standalone classifier as a dictionary with all of its
    keys; the index is the [int] of [enumerate]. *)
Definition complete (kp : StandalonePose.keypoint) : BackendPose.keypoint :=
  BackendPose.mkKeypoint
    (Some (BackendPose.IntIndex (StandalonePose.key_index kp)))
    (Some (StandalonePose.key_x kp))
    (Some (StandalonePose.key_y kp))
    (Some (StandalonePose.key_confidence kp)).

(** The dictionary of a detection read as an element of a batch, as the
    endpoints of [main.py] pass it on: there is no key ['player_id']. *)
Definition as_action (d : Pose.detection) : action_data :=
  mkActionData None (Some (Pose.move d)) (Some (Pose.confidence d))
               (Some (Pose.timestamp d)).

(** The handling of pose data in [main.py]: the moves that the classifier
    detects are the batch of the engine. *)
Definition detect_pose (is_ready : bool)
  (keypoints : list BackendPose.keypoint) (clock : nat -> float)
  (t0 t1 t2 : float) : M BoxingGame :=
  process_actions t0 t1 t2
    (map as_action (BackendPose.process_pose is_ready keypoints clock)).

(** A NaN or a zero of either sign. *)
Definition zero_or_nan (x : float) : Prop :=
  x = S754_nan \/ exists s, x = S754_zero s.

(** [x < 0.0] does not hold: [x] is positive, a zero or a NaN. *)
Definition not_negative (x : float) : Prop := F64.ltb x F64.zero = false.

(** The moves that a classifier records for a pose, without the times: the
    moves of the table whose detector exceeds its threshold, in the order of
    the table, each with the confidence of its detector. *)
Definition recorded (p : Pose.pose_data)
  (moves : list (string * (Pose.pose_data -> float))) (limit : float)
  : list (string * float) :=
  map (fun m => (fst m, snd m p))
      (filter (fun m => F64.gtb (snd m p) limit) moves).

(** ** Sample poses *)

Definition keypoint_at (i : Z) (vx vy : float) : BackendPose.keypoint :=
  BackendPose.mkKeypoint (Some (BackendPose.IntIndex i)) (Some vx) (Some vy)
                         (Some F64.f0_9).

(** The same keypoint as the endpoint [/pose/detect] delivers it: the index
    is a [float]. *)
Definition float_keypoint_at (i : Z) (vx vy : float) : BackendPose.keypoint :=
  BackendPose.mkKeypoint (Some (BackendPose.FloatIndex (F64.of_int i)))
                         (Some vx) (Some vy) (Some F64.f0_9).

(** Both wrists raised above the shoulders and close to them. *)
Definition block_pose : Pose.pose_data :=
  match
    BackendPose._normalize_keypoints
      [keypoint_at 11 F64.f0_3 F64.f0_5; keypoint_at 15 F64.f0_4 F64.f0_3;
       keypoint_at 12 F64.f0_7 F64.f0_5; keypoint_at 16 F64.f0_6 F64.f0_3]
  with
  | Some p => p
  | None => Pose.zeros
  end.

(** ** A finished match *)

(** The operations that look at the phase before they change anything, or
    that only read or end the match. *)
Definition leaves_finished (o : operation) : bool :=
  match o with
  | ResumeGame | EndGame | GetState | ProcessActions _ _ _ _ => true
  | _ => false
  end.

(** The two player match after a jab, ended. *)
Definition ended_game : BoxingGame := exec end_game scored_game.
(** ** Facts on binary64 arithmetic *)

Module F64Facts.

Import F64.


Lemma signed_false_pos (m : positive) : 0 < signed false m.
Proof. unfold signed, cond_Zopp. lia. Qed.



Lemma scale_trunc_nonneg (z e : Z) : 0 <= z -> 0 <= scale_trunc z e.
Proof.
  intros Hz. unfold scale_trunc.
  destruct (0 <=? e) eqn:He.
  - apply Z.leb_le in He.
    assert (0 < 2 ^ e) by (apply Z.pow_pos_nonneg; lia).
    apply Z.mul_nonneg_nonneg; lia.
  - apply Z.leb_gt in He. apply Z.quot_pos; [lia|].
    apply Z.pow_pos_nonneg; lia.
Qed.

Lemma scale_trunc_floor (z e : Z) :
  0 <= z -> scale_trunc z e = scale_floor z e.
Proof.
  intros Hz. unfold scale_trunc, scale_floor.
  destruct (0 <=? e) eqn:He; [reflexivity|].
  apply Z.leb_gt in He.
  apply Z.quot_div_nonneg; [lia|].
  apply Z.pow_pos_nonneg; lia.
Qed.



(** On a float whose sign bit is clear, [int] is not negative. *)
Lemma trunc_sign_clear_nonneg (x : float) (n : Z) :
  sign_clear x = true -> trunc x = Some n -> 0 <= n.
Proof.
  destruct x as [s | s | | s m e]; cbn [trunc sign_clear]; try discriminate.
  - intros _ H. injection H as <-. lia.
  - intros Hs H. destruct s; [discriminate|]. injection H as <-.
    apply scale_trunc_nonneg. pose proof (signed_false_pos m). lia.
Qed.

(** The sign of a rounded number is the sign given to the rounding. *)
Lemma binary_round_aux_sign_clear (mx ex : Z) (lx : location) :
  sign_clear (binary_round_aux prec emax false mx ex lx) = true.
Proof.
  unfold binary_round_aux.
  destruct (shr_fexp prec emax mx ex lx) as [mrs' e'].
  destruct (shr_fexp prec emax _ e' loc_Exact) as [mrs'' e''].
  destruct (shr_m mrs''); try reflexivity.
  destruct (e'' <=? emax - prec); reflexivity.
Qed.




(** *** Rounding of small products *)

Lemma shr_1_m (r : shr_record) :
  0 <= shr_m r -> shr_m (shr_1 r) = shr_m r / 2.
Proof.
  rewrite <- Z.div2_div.
  destruct r as [m r s]. simpl.
  destruct m as [| p | p]; [reflexivity | | lia].
  intros _. destruct p; reflexivity.
Qed.

Lemma pow2_xO (q : positive) : 2 ^ Zpos q~0 = 2 ^ Zpos q * 2 ^ Zpos q.
Proof. rewrite <- Z.pow_add_r by lia. f_equal. lia. Qed.

Lemma pow2_xI (q : positive) : 2 ^ Zpos q~1 = 2 * (2 ^ Zpos q * 2 ^ Zpos q).
Proof.
  rewrite <- Z.pow_add_r, <- Z.pow_succ_r by lia. f_equal. lia.
Qed.

Lemma shr_iter_m (p : positive) :
  forall r, 0 <= shr_m r ->
            shr_m (iter_pos shr_1 p r) = shr_m r / 2 ^ Zpos p.
Proof.
  assert (Hpow : forall q, 0 < 2 ^ Zpos q)
    by (intros q; apply Z.pow_pos_nonneg; lia).
  assert (Hnn : forall a q, 0 <= a -> 0 <= a / 2 ^ Zpos q)
    by (intros a q Ha; apply Z.div_pos; auto).
  induction p as [p IH | p IH |]; intros r Hr; cbn [iter_pos].
  - assert (H1 : 0 <= shr_m (shr_1 r))
      by (rewrite shr_1_m by exact Hr; apply Z.div_pos; lia).
    rewrite IH by (rewrite IH by exact H1; apply Hnn, H1).
    rewrite IH by exact H1. rewrite shr_1_m by exact Hr.
    pose proof (Hpow p).
    rewrite !Z.div_div by lia.
    now rewrite pow2_xI.
  - rewrite IH by (rewrite IH by exact Hr; apply Hnn, Hr).
    rewrite IH by exact Hr.
    pose proof (Hpow p).
    rewrite Z.div_div by lia.
    now rewrite pow2_xO.
  - rewrite shr_1_m by exact Hr. reflexivity.
Qed.

Lemma shr_record_of_loc_m (m : Z) (l : location) :
  shr_m (shr_record_of_loc m l) = m.
Proof. destruct l as [| []]; reflexivity. Qed.

(** A right shift to the exponent of the format. *)
Lemma shr_fexp_m (m e : Z) (l : location) :
  0 <= m ->
  let e' := Z.max e (fexp prec emax (Zdigits2 m + e)) in
  snd (shr_fexp prec emax m e l) = e' /\
  shr_m (fst (shr_fexp prec emax m e l)) = m / 2 ^ (e' - e).
Proof.
  intros Hm e'. unfold shr_fexp, shr.
  destruct (fexp prec emax (Zdigits2 m + e) - e) as [| p | p] eqn:Hn;
    cbn [fst snd].
  - assert (e' = e) by lia. rewrite shr_record_of_loc_m.
    replace (e' - e) with 0 by lia. rewrite Z.div_1_r. auto.
  - assert (e' = e + Z.pos p) by lia.
    rewrite shr_iter_m by (rewrite shr_record_of_loc_m; exact Hm).
    rewrite shr_record_of_loc_m.
    replace (e' - e) with (Z.pos p) by lia. auto.
  - assert (e' = e) by lia. rewrite shr_record_of_loc_m.
    replace (e' - e) with 0 by lia. rewrite Z.div_1_r. auto.
Qed.

Lemma round_nearest_even_bounds (m : Z) (l : location) :
  m <= round_nearest_even m l <= m + 1.
Proof.
  unfold round_nearest_even.
  destruct l as [| []]; try lia. destruct (Z.even m); lia.
Qed.

Lemma digits2_pos_upper (p : positive) :
  forall k, 0 <= k -> Zpos p < 2 ^ k -> Zpos (digits2_pos p) <= k.
Proof.
  induction p as [p IH | p IH |]; intros k Hk Hp; cbn [digits2_pos].
  - assert (k <> 0) by (intros ->; simpl in Hp; lia).
    replace k with (Z.succ (k - 1)) in Hp by lia.
    rewrite Z.pow_succ_r in Hp by lia.
    specialize (IH (k - 1)). lia.
  - assert (k <> 0) by (intros ->; simpl in Hp; lia).
    replace k with (Z.succ (k - 1)) in Hp by lia.
    rewrite Z.pow_succ_r in Hp by lia.
    specialize (IH (k - 1)). lia.
  - assert (k <> 0) by (intros ->; simpl in Hp; lia). lia.
Qed.

Lemma Zdigits2_upper (m k : Z) :
  0 <= m -> 0 <= k -> m < 2 ^ k -> Zdigits2 m <= k.
Proof.
  intros Hm Hk Hlt. destruct m as [| p | p]; simpl; [lia | | lia].
  now apply digits2_pos_upper.
Qed.

Lemma digits2_pos_lower (p : positive) : Zpos p < 2 ^ Zpos (digits2_pos p).
Proof.
  induction p as [p IH | p IH |]; cbn [digits2_pos].
  - rewrite Pos2Z.inj_succ, Z.pow_succ_r by lia. lia.
  - rewrite Pos2Z.inj_succ, Z.pow_succ_r by lia. lia.
  - simpl. lia.
Qed.

Lemma fexp_upper (d k : Z) :
  d <= k -> k <= 52 -> fexp prec emax d < 0.
Proof. unfold fexp, emin, prec, emax. lia. Qed.

Lemma pow2_pos (a : Z) : 0 <= a -> 0 < 2 ^ a.
Proof. intros. apply Z.pow_pos_nonneg; lia. Qed.

Lemma pow2_split (a b : Z) : 0 <= a -> 0 <= b -> 2 ^ (a + b) = 2 ^ a * 2 ^ b.
Proof. intros. now apply Z.pow_add_r. Qed.

(** Rounding a non-negative number that is at most the integer [N] gives a
    finite float whose integer part is at most [N]. *)
Lemma binary_round_aux_small (mx ex N k : Z) (l : location) :
  0 <= mx -> ex < 0 -> 0 <= N < 2 ^ k -> 0 <= k <= 50 ->
  mx <= N * 2 ^ (- ex) ->
  exists n, trunc (binary_round_aux prec emax false mx ex l) = Some n /\
            0 <= n <= N.
Proof.
  intros Hmx Hex HN Hk Hle.
  unfold binary_round_aux.
  destruct (shr_fexp_m mx ex l Hmx) as [He1 Hm1].
  destruct (shr_fexp prec emax mx ex l) as [mrs1 e1]. cbn [fst snd] in *.
  rewrite <- He1 in Hm1.
  assert (Hpex : 0 < 2 ^ (- ex)) by (apply pow2_pos; lia).
  assert (Hmxlt : mx < 2 ^ (k - ex)).
  { replace (k - ex) with (k + - ex) by lia. rewrite pow2_split by lia. nia. }
  assert (Hdig : Zdigits2 mx + ex <= k).
  { pose proof (Zdigits2_upper mx (k - ex) Hmx ltac:(lia) Hmxlt). lia. }
  pose proof (fexp_upper _ k Hdig ltac:(lia)) as Hf1.
  assert (He1neg : ex <= e1 < 0) by lia.
  assert (Hp1 : 0 < 2 ^ (- e1)) by (apply pow2_pos; lia).
  assert (Hp1' : 0 < 2 ^ (e1 - ex)) by (apply pow2_pos; lia).
  assert (Hsplit : 2 ^ (- ex) = 2 ^ (e1 - ex) * 2 ^ (- e1)).
  { rewrite <- pow2_split by lia. f_equal. lia. }
  assert (Hm1nn : 0 <= shr_m mrs1) by (rewrite Hm1; apply Z.div_pos; lia).
  assert (Hm1le : shr_m mrs1 <= N * 2 ^ (- e1)).
  { rewrite Hm1. apply Z.div_le_upper_bound; [lia|].
    rewrite Hsplit in Hle. lia. }
  pose proof (round_nearest_even_bounds (shr_m mrs1)
                (loc_of_shr_record mrs1)) as Hrne.
  set (m1 := round_nearest_even (shr_m mrs1) (loc_of_shr_record mrs1)) in *.
  assert (Hm1' : 0 <= m1) by lia.
  destruct (shr_fexp_m m1 e1 loc_Exact Hm1') as [He2 Hm2].
  destruct (shr_fexp prec emax m1 e1 loc_Exact) as [mrs2 e2].
  cbn [fst snd] in *. rewrite <- He2 in Hm2.
  assert (Hp2lt : 2 <= 2 ^ (- e1)).
  { change 2 with (2 ^ 1) at 1. apply Z.pow_le_mono_r; lia. }
  assert (Hm1lt : m1 < 2 ^ (k + 1 - e1)).
  { replace (k + 1 - e1) with (k + (1 + - e1)) by lia.
    rewrite !pow2_split by lia. change (2 ^ 1) with 2. nia. }
  assert (Hdig2 : Zdigits2 m1 + e1 <= k + 1).
  { pose proof (Zdigits2_upper m1 (k + 1 - e1) Hm1' ltac:(lia) Hm1lt). lia. }
  pose proof (fexp_upper _ (k + 1) Hdig2 ltac:(lia)) as Hf2.
  assert (He2neg : e1 <= e2 < 0) by lia.
  assert (Hp2 : 0 < 2 ^ (- e2)) by (apply pow2_pos; lia).
  assert (Hp2' : 0 < 2 ^ (e2 - e1)) by (apply pow2_pos; lia).
  assert (Hm2nn : 0 <= shr_m mrs2) by (rewrite Hm2; apply Z.div_pos; lia).
  destruct (shr_m mrs2) as [| p | p] eqn:Hp; [| | lia].
  - exists 0. cbn [trunc]. split; [reflexivity | lia].
  - assert (Hle2 : (e2 <=? emax - prec) = true)
      by (apply Z.leb_le; unfold emax, prec; lia).
    rewrite Hle2. cbn [trunc].
    eexists. split; [reflexivity|].
    rewrite scale_trunc_floor by (unfold signed, cond_Zopp; lia).
    unfold scale_floor, signed, cond_Zopp.
    assert (H0 : (0 <=? e2) = false) by (apply Z.leb_gt; lia).
    rewrite H0, Hm2, Z.div_div by lia.
    replace (2 ^ (e2 - e1) * 2 ^ (- e2)) with (2 ^ (- e1))
      by (rewrite <- pow2_split by lia; f_equal; lia).
    split; [apply Z.div_pos; lia|].
    apply Z.lt_succ_r, Z.div_lt_upper_bound; [lia | nia].
Qed.

Lemma confidence_mantissa (m : positive) (e : Z) :
  valid (S754_finite false m e) = true ->
  leb (S754_finite false m e) one = true ->
  e <= -52 /\ Zpos m <= 2 ^ (- e).
Proof.
  unfold valid, valid_binary, bounded, canonical_mantissa.
  intros Hv Hle. apply andb_true_iff in Hv. destruct Hv as [Hc _].
  apply Z.eqb_eq in Hc. unfold fexp, emin, prec, emax in Hc.
  pose proof (digits2_pos_lower m) as Hlt.
  assert (Hd : Zpos (digits2_pos m) <= 53) by lia.
  assert (H53 : Zpos m < 2 ^ 53).
  { eapply Z.lt_le_trans; [exact Hlt|]. apply Z.pow_le_mono_r; lia. }
  unfold leb, SFleb, SFcompare, one in Hle.
  destruct (Z.compare_spec e (-52)) as [He | He | He].
  - split; [lia|]. subst e.
    pose proof (Pos.compare_spec m 4503599627370496) as Hs.
    unfold Pos.compare in Hs.
    assert (Hp : 2 ^ (- (-52)) = Zpos 4503599627370496)
      by (vm_compute; reflexivity).
    rewrite Hp.
    destruct Hs as [Hm | Hm | Hm]; try discriminate.
    + rewrite Hm. apply Z.le_refl.
    + apply Z.lt_le_incl. exact Hm.
  - split; [lia|].
    apply Z.lt_le_incl. eapply Z.lt_le_trans; [exact H53|].
    apply Z.pow_le_mono_r; lia.
  - discriminate.
Qed.

(** The product of a small non-negative integer, held as a float, and a
    confidence is finite, and its integer part does not exceed the integer. *)
Lemma mul_finite_confidence (b : Z) (mb : positive) (eb : Z) (c : float) :
  eb <= 0 -> Zpos mb = b * 2 ^ (- eb) -> 0 <= b < 32 ->
  is_confidence c = true ->
  exists n, trunc (mul (S754_finite false mb eb) c) = Some n /\ 0 <= n <= b.
Proof.
  intros Heb Hmb Hb Hc. unfold is_confidence in Hc.
  apply andb_true_iff in Hc. destruct Hc as [Hc Hone].
  apply andb_true_iff in Hc. destruct Hc as [Hval Hzero].
  destruct c as [s | s | | s m e].
  - exists 0. split; [reflexivity | lia].
  - destruct s; discriminate.
  - discriminate.
  - destruct s; [discriminate|].
    destruct (confidence_mantissa m e Hval Hone) as [He Hm].
    unfold mul, SFmul. cbn [xorb].
    apply (binary_round_aux_small _ _ b 5); try lia.
    rewrite Pos2Z.inj_mul, Hmb.
    replace (- (eb + e)) with (- eb + - e) by lia.
    rewrite pow2_split by lia.
    assert (0 < 2 ^ (- eb)) by (apply pow2_pos; lia).
    assert (0 < 2 ^ (- e)) by (apply pow2_pos; lia).
    nia.
Qed.

End F64Facts.

(** ** Reasoning on the methods *)


(** *** Objects of the dictionary, position by position *)

Section Pointwise.

Variable Q : Player -> Player -> Prop.

Hypothesis Q_refl : forall p, Q p p.

Lemma pointwise_refl (d : dict) : pointwise Q d d.
Proof. induction d; constructor; auto. Qed.

Lemma pointwise_dict_modify (k : string) (f : Player -> Player) (d : dict) :
  (forall p, Q p (f p)) -> pointwise Q d (dict_modify k f d).
Proof.
  intros Hf. induction d as [| [k' v] rest IH]; simpl.
  - constructor.
  - destruct (String.eqb k' k).
    + constructor; [split; [reflexivity | apply Hf] | apply pointwise_refl].
    + constructor; [split; [reflexivity | apply Q_refl] | exact IH].
Qed.

Lemma pointwise_modify_first (c : Player -> bool) (f : Player -> Player)
  (d : dict) :
  (forall p, Q p (f p)) -> pointwise Q d (modify_first c f d).
Proof.
  intros Hf. induction d as [| [k' v] rest IH]; simpl.
  - constructor.
  - destruct (c v).
    + constructor; [split; [reflexivity | apply Hf] | apply pointwise_refl].
    + constructor; [split; [reflexivity | apply Q_refl] | exact IH].
Qed.

Lemma pointwise_modify_nth (i : nat) (f : Player -> Player) (d : dict) :
  (forall p, Q p (f p)) -> pointwise Q d (modify_nth i f d).
Proof.
  intros Hf. revert i.
  induction d as [| [k' v] rest IH]; intros i; simpl.
  - constructor.
  - destruct i.
    + constructor; [split; [reflexivity | apply Hf] | apply pointwise_refl].
    + constructor; [split; [reflexivity | apply Q_refl] | apply IH].
Qed.

Lemma pointwise_modify_all (f : Player -> Player) (d : dict) :
  (forall p, Q p (f p)) -> pointwise Q d (modify_all f d).
Proof.
  intros Hf. induction d as [| [k' v] rest IH]; simpl; constructor; auto.
Qed.

Lemma pointwise_dict_get (d d' : dict) (k : string) :
  pointwise Q d d' ->
  match dict_get k d, dict_get k d' with
  | Some p, Some p' => Q p p'
  | None, None => True
  | _, _ => False
  end.
Proof.
  induction 1 as [| [k1 v1] [k2 v2] rest rest' [Hk Hq] _ IH]; simpl.
  - exact I.
  - simpl in Hk. subst k2. destruct (String.eqb k1 k); [exact Hq | exact IH].
Qed.

Lemma pointwise_keys (d d' : dict) : pointwise Q d d' -> keys d = keys d'.
Proof.
  induction 1 as [| [k1 v1] [k2 v2] rest rest' [Hk _] _ IH]; simpl.
  - reflexivity.
  - simpl in Hk. now rewrite Hk, IH.
Qed.

Lemma pointwise_length (d d' : dict) :
  pointwise Q d d' -> List.length d = List.length d'.
Proof. apply Forall2_length. Qed.

End Pointwise.

Lemma pointwise_trans (Q : Player -> Player -> Prop) :
  (forall a b c, Q a b -> Q b c -> Q a c) ->
  forall d1 d2 d3, pointwise Q d1 d2 -> pointwise Q d2 d3 -> pointwise Q d1 d3.
Proof.
  intros Ht d1 d2 d3 H12. revert d3.
  induction H12 as [| a b l l' [Hk Hq] _ IH]; intros d3 H23.
  - inversion H23. constructor.
  - inversion H23 as [| b' c l2 l3 [Hk' Hq'] Hrest]; subst.
    constructor; [split; [congruence | eauto] | apply IH; exact Hrest].
Qed.

(** *** Invariants of the monad *)


Section Preserves.

Variable P : BoxingGame -> Prop.

Lemma preserves_ret {A} (a : A) : preserves P (ret a).
Proof. intros g H. exact H. Qed.

Lemma preserves_raise {A} (e : exn) : preserves P (@raise A e).
Proof. intros g H. exact H. Qed.

Lemma preserves_lift {A} (o : outcome A) : preserves P (lift o).
Proof. intros g H. exact H. Qed.

Lemma preserves_get : preserves P get.
Proof. intros g H. exact H. Qed.

Lemma preserves_bind {A B} (c : M A) (k : A -> M B) :
  preserves P c -> (forall a, preserves P (k a)) -> preserves P (bind c k).
Proof.
  intros Hc Hk g H. unfold exec, bind.
  specialize (Hc g H). unfold exec in Hc.
  destruct (c g) as [[a | e] g']; simpl in *.
  - apply (Hk a g' Hc).
  - exact Hc.
Qed.

(** A reading of the state may be used with the knowledge that the state
    read satisfies [P]. *)
Lemma preserves_bind_get {B} (k : BoxingGame -> M B) :
  (forall g, P g -> preserves P (k g)) -> preserves P (bind get k).
Proof. intros Hk g H. unfold exec, bind, get. simpl. apply (Hk g H g H). Qed.

(** A pure computation that may raise, followed by [k]. *)
Lemma preserves_bind_lift {A B} (o : outcome A) (k : A -> M B) :
  (forall a, o = Ret a -> preserves P (k a)) -> preserves P (bind (lift o) k).
Proof.
  intros Hk g H. unfold exec, bind, lift.
  destruct o as [a | e]; simpl; [apply (Hk a eq_refl g H) | exact H].
Qed.

Lemma preserves_modify (f : BoxingGame -> BoxingGame) :
  (forall g, P g -> P (f g)) -> preserves P (modify f).
Proof. intros Hf g H. apply Hf, H. Qed.

End Preserves.

Create HintDb pres.

#[local] Hint Resolve preserves_ret preserves_raise preserves_lift
  preserves_get : pres.

(** *** The health of every player lies between 0 and 100 *)


Lemma Forall_values_pointwise (P : Player -> Prop) (Q : Player -> Player -> Prop)
  (d d' : dict) :
  (forall p p', P p -> Q p p' -> P p') ->
  pointwise Q d d' -> Forall P (values d) -> Forall P (values d').
Proof.
  intros HPQ Hpw. induction Hpw as [| a b l l' [_ Hq] _ IH]; simpl; intros HF.
  - constructor.
  - inversion HF; subst. constructor; eauto.
Qed.


Lemma Forall_values_updated (P : Player -> Prop) (d d' : dict) :
  pointwise (updated_by P) d d' -> Forall P (values d) -> Forall P (values d').
Proof.
  apply Forall_values_pointwise. intros p p' Hp Hq. exact (Hq Hp).
Qed.

Lemma Forall_values_dict_set (P : Player -> Prop) (k : string) (v : Player)
  (d : dict) :
  P v -> Forall P (values d) -> Forall P (values (dict_set k v d)).
Proof.
  intros Hv. induction d as [| [k' v'] rest IH]; simpl; intros HF.
  - constructor; [exact Hv | constructor].
  - inversion HF; subst.
    destruct (String.eqb k' k); simpl; constructor; auto.
Qed.

Lemma Forall_values_dict_del (P : Player -> Prop) (k : string) (d : dict) :
  Forall P (values d) -> Forall P (values (dict_del k d)).
Proof.
  induction d as [| [k' v'] rest IH]; simpl; intros HF.
  - constructor.
  - inversion HF; subst.
    destruct (negb (String.eqb k' k)); simpl; [constructor|]; auto.
Qed.

Section HealthInvariant.

Let Inv := all_health_in_range.

Lemma health_modify_players (f : dict -> dict) :
  (forall d, Forall health_in_range (values d) ->
             Forall health_in_range (values (f d))) ->
  preserves Inv (modify_players f).
Proof. intros Hf g H. apply Hf, H. Qed.

Lemma health_modify_field (f : BoxingGame -> BoxingGame) :
  (forall g, players (f g) = players g) -> preserves Inv (modify f).
Proof.
  intros Hf g H. unfold exec, modify, Inv, all_health_in_range. simpl.
  rewrite Hf. exact H.
Qed.

(** Any attribute assignment that leaves the health in range. *)
Lemma health_dict_modify (k : string) (f : Player -> Player) :
  (forall p, health_in_range p -> health_in_range (f p)) ->
  preserves Inv (modify_players (dict_modify k f)).
Proof.
  intros Hf. apply health_modify_players. intros d.
  apply Forall_values_updated, pointwise_dict_modify; unfold updated_by; auto.
Qed.

Lemma health_modify_first (c : Player -> bool) (f : Player -> Player) :
  (forall p, health_in_range p -> health_in_range (f p)) ->
  preserves Inv (modify_players (modify_first c f)).
Proof.
  intros Hf. apply health_modify_players. intros d.
  apply Forall_values_updated, pointwise_modify_first; unfold updated_by; auto.
Qed.

Lemma health_modify_nth (i : nat) (f : Player -> Player) :
  (forall p, health_in_range p -> health_in_range (f p)) ->
  preserves Inv (modify_players (modify_nth i f)).
Proof.
  intros Hf. apply health_modify_players. intros d.
  apply Forall_values_updated, pointwise_modify_nth; unfold updated_by; auto.
Qed.

Lemma health_modify_all (f : Player -> Player) :
  (forall p, health_in_range (f p)) ->
  preserves Inv (modify_players (modify_all f)).
Proof.
  intros Hf. apply health_modify_players. intros d _.
  induction d as [| [k v] rest IH]; simpl; constructor; auto.
Qed.

Lemma health_apply_damage (damage : Z) (p : Player) :
  0 <= damage -> health_in_range p -> health_in_range (_apply_damage damage p).
Proof. unfold health_in_range, _apply_damage. simpl. lia. Qed.

Lemma calculate_damage_nonneg (mt : MoveType) (conf : float)
  (opponent : Player) (d : Z) :
  _calculate_damage mt conf opponent = Ret d -> 0 <= d.
Proof.
  unfold _calculate_damage.
  destruct (int_of_float _) as [d0 | e]; [|discriminate].
  destruct (if is_blocking opponent then _ else _) as [d1 | e];
    [|discriminate].
  intros H. injection H as <-. lia.
Qed.

Lemma health_process_single_action (action : GameAction) :
  preserves Inv (_process_single_action action).
Proof.
  unfold _process_single_action.
  apply preserves_bind_get. intros g _.
  destruct (negb (dict_mem (player_id action) (players g)));
    [auto with pres|].
  destruct (MoveType_of_value (move_type action)) as [mt|];
    [|auto with pres].
  apply preserves_bind; [apply health_dict_modify; auto|]. intros _.
  destruct (is_defensive mt).
  { destruct mt; apply health_dict_modify; auto. }
  destruct (is_offensive mt); [|auto with pres].
  apply preserves_bind_get. intros g1 _.
  destruct (_get_opponent (player_id action) g1) as [[oid opp]|];
    [|auto with pres].
  apply preserves_bind_lift. intros d Hd.
  apply calculate_damage_nonneg in Hd.
  apply preserves_bind.
  { apply health_dict_modify. intros p. now apply health_apply_damage. }
  intros _. destruct (0 <? d); [|auto with pres].
  apply health_dict_modify; auto.
Qed.

Lemma health_process_batch (t : float) (actions : list action_data) :
  preserves Inv (process_batch t actions).
Proof.
  induction actions as [| a rest IH]; simpl; [auto with pres|].
  apply preserves_bind; [|intros _; exact IH].
  unfold process_action_data.
  destruct (key_move a); [|auto with pres].
  destruct (key_confidence a); [|auto with pres].
  apply health_process_single_action.
Qed.

Lemma health_handle_knockout (p : Player) :
  preserves Inv (_handle_knockout p).
Proof.
  unfold _handle_knockout.
  apply preserves_bind; [apply health_modify_first; auto|]. intros _.
  now apply health_modify_field.
Qed.

Lemma health_handle_round_end (now : float) :
  preserves Inv (_handle_round_end now).
Proof.
  unfold _handle_round_end.
  apply preserves_bind_get. intros g _.
  apply preserves_bind.
  { destruct (2 <=? _); [|auto with pres].
    destruct (sort_reverse _) as [| [w ?] ?]; [auto with pres|].
    apply health_modify_nth; auto. }
  intros _. apply preserves_bind; [now apply health_modify_field|].
  intros _. apply preserves_bind_get. intros g1 _.
  destruct (max_rounds g1 <? current_round g1);
    [now apply health_modify_field|].
  apply preserves_bind; [now apply health_modify_field|]. intros _.
  apply health_modify_all. intros p. unfold health_in_range. simpl. lia.
Qed.

Lemma health_check_game_conditions (t1 t2 : float) :
  preserves Inv (_check_game_conditions t1 t2).
Proof.
  unfold _check_game_conditions.
  apply preserves_bind_get. intros g _.
  destruct (find _ _); [apply health_handle_knockout|].
  destruct (game_start_time g) as [start|]; [|auto with pres].
  destruct (F64.truthy start); [|auto with pres].
  destruct (F64.geb _ _); [apply health_handle_round_end | auto with pres].
Qed.

Lemma health_process_actions (t0 t1 t2 : float) (actions : list action_data) :
  preserves Inv (process_actions t0 t1 t2 actions).
Proof.
  unfold process_actions, get_state.
  apply preserves_bind_get. intros g _.
  destruct (negb _); [auto with pres|].
  apply preserves_bind; [now apply health_modify_field|]. intros _.
  apply preserves_bind; [apply health_process_batch|]. intros _.
  apply preserves_bind; [apply health_check_game_conditions|]. intros _.
  auto with pres.
Qed.

Lemma health_add_player (pid nm : string) :
  preserves Inv (add_player pid nm).
Proof.
  unfold add_player.
  apply preserves_bind; [|auto with pres].
  apply health_modify_players. intros d.
  apply Forall_values_dict_set. unfold health_in_range. simpl. lia.
Qed.

Lemma health_remove_player (pid : string) :
  preserves Inv (remove_player pid).
Proof.
  unfold remove_player.
  apply preserves_bind_get. intros g _.
  destruct (dict_mem pid (players g)); [|auto with pres].
  apply preserves_bind; [|auto with pres].
  apply health_modify_players. intros d. apply Forall_values_dict_del.
Qed.

Lemma health_start_game (now : float) : preserves Inv (start_game now).
Proof.
  unfold start_game, get_state.
  apply preserves_bind_get. intros g _.
  destruct (_ <? 1); [auto with pres|].
  repeat (apply preserves_bind;
          [now apply health_modify_field | intros _]).
  apply preserves_bind; [|auto with pres].
  apply health_modify_all. intros p. unfold health_in_range. simpl. lia.
Qed.

Lemma health_pause_game : preserves Inv pause_game.
Proof.
  unfold pause_game, get_state.
  apply preserves_bind; [now apply health_modify_field | auto with pres].
Qed.

Lemma health_resume_game : preserves Inv resume_game.
Proof.
  unfold resume_game, get_state.
  apply preserves_bind_get. intros g _.
  apply preserves_bind; [|auto with pres].
  destruct (GameState_eqb _ _);
    [now apply health_modify_field | auto with pres].
Qed.

Lemma health_end_game : preserves Inv end_game.
Proof.
  unfold end_game, get_state.
  apply preserves_bind; [now apply health_modify_field | auto with pres].
Qed.

Lemma health_reset : preserves Inv reset.
Proof.
  unfold reset.
  apply preserves_bind; [now apply health_modify_field | intros _].
  apply preserves_bind.
  { apply health_modify_players. intros d _. constructor. }
  intros _.
  repeat (apply preserves_bind;
          [now apply health_modify_field | intros _]).
  now apply health_modify_field.
Qed.

End HealthInvariant.


Lemma health_run (o : operation) (g : BoxingGame) :
  all_health_in_range g -> all_health_in_range (run o g).
Proof.
  destruct o; simpl.
  - apply health_add_player.
  - apply health_remove_player.
  - apply health_start_game.
  - apply health_pause_game.
  - apply health_resume_game.
  - apply health_end_game.
  - apply health_process_actions.
  - auto.
  - apply health_reset.
Qed.

(** C2: in every state that a sequence of operations reaches from the
    initial state, the health of every player is an integer between 0 and
    100. *)
Theorem health_always_in_range (ops : list operation) :
  Forall (fun p => 0 <= health p <= 100)
         (values (players (run_all ops init))).
Proof.
  change (all_health_in_range (run_all ops init)).
  unfold run_all.
  assert (H : all_health_in_range init) by constructor.
  revert H. generalize init.
  induction ops as [| o ops IH]; intros g H; simpl.
  - exact H.
  - apply IH, health_run, H.
Qed.

(** *** The damage of a punch *)


Lemma int_of_float_Ret (x : float) (n : Z) :
  int_of_float x = Ret n <-> F64.trunc x = Some n.
Proof.
  unfold int_of_float. destruct (F64.trunc x) as [k|].
  - split; intros H; injection H as <-; reflexivity.
  - split; [destruct x; discriminate | discriminate].
Qed.




Lemma of_int_move_damage (mt : MoveType) :
  is_offensive mt = true ->
  exists mb eb,
    F64.of_int (move_damage mt) = S754_finite false mb eb /\
    eb <= 0 /\ Zpos mb = move_damage mt * 2 ^ (- eb).
Proof.
  destruct mt; intros H; try discriminate; eexists _, _;
    (split; [vm_compute; reflexivity |
             split; [lia | vm_compute; reflexivity]]).
Qed.

Lemma blocked_damage_total (mt : MoveType) (d0 : Z) :
  0 <= d0 <= 25 ->
  exists n, F64.trunc (F64.mul (F64.of_int d0) (move_effectiveness mt))
            = Some n /\ n <= d0.
Proof.
  intros Hd.
  assert (Hall : forallb
            (fun d => integer_part_at_most (Z.of_nat d)
                        (F64.mul (F64.of_int (Z.of_nat d))
                                 (move_effectiveness mt)))
            (seq 0 26) = true)
    by (destruct mt; vm_compute; reflexivity).
  rewrite forallb_forall in Hall.
  specialize (Hall (Z.to_nat d0)).
  rewrite Z2Nat.id in Hall by lia.
  assert (Hin : In (Z.to_nat d0) (seq 0 26)) by (apply in_seq; lia).
  specialize (Hall Hin). unfold integer_part_at_most in Hall.
  destruct (F64.trunc _) as [n|]; [|discriminate].
  exists n. split; [reflexivity | now apply Z.leb_le].
Qed.


(** *** Lookups after an update *)

Lemma dict_get_modify_same (k : string) (f : Player -> Player) (d : dict) :
  dict_get k (dict_modify k f d) = option_map f (dict_get k d).
Proof.
  induction d as [| [k' v] rest IH]; simpl; [reflexivity|].
  destruct (String.eqb k' k) eqn:E; simpl; rewrite E; auto.
Qed.

Lemma dict_get_modify_other (k k' : string) (f : Player -> Player) (d : dict) :
  k <> k' -> dict_get k' (dict_modify k f d) = dict_get k' d.
Proof.
  intros Hne. induction d as [| [k0 v] rest IH]; simpl; [reflexivity|].
  destruct (String.eqb k0 k) eqn:E; simpl.
  - apply String.eqb_eq in E. subst k0.
    destruct (String.eqb k k') eqn:E'; [|reflexivity].
    apply String.eqb_eq in E'. contradiction.
  - destruct (String.eqb k0 k'); auto.
Qed.


Lemma length_dict_modify (k : string) (f : Player -> Player) (d : dict) :
  List.length (dict_modify k f d) = List.length d.
Proof.
  symmetry. apply (pointwise_length (fun _ _ => True)).
  apply pointwise_dict_modify; auto.
Qed.

Lemma dict_mem_modify (k k' : string) (f : Player -> Player) (d : dict) :
  dict_mem k' (dict_modify k f d) = dict_mem k' d.
Proof.
  unfold dict_mem.
  pose proof (pointwise_dict_get (fun _ _ => True) d (dict_modify k f d) k'
                (pointwise_dict_modify _ (fun _ => I) k f d (fun _ => I))) as H.
  destruct (dict_get k' d), (dict_get k' (dict_modify k f d));
    tauto || reflexivity.
Qed.

(** *** The opponent *)








(** *** The first object that satisfies a test *)

Lemma modify_first_app (c : Player -> bool) (f : Player -> Player)
  (pre : dict) (k : string) (w : Player) (post : dict) :
  Forall (fun kv => c (snd kv) = false) pre -> c w = true ->
  modify_first c f (pre ++ (k, w) :: post)%list
  = (pre ++ (k, f w) :: post)%list.
Proof.
  intros Hpre Hw. induction Hpre as [| [k' v] rest Hv _ IH]; simpl.
  - now rewrite Hw.
  - simpl in Hv. now rewrite Hv, IH.
Qed.

Lemma modify_first_none (c : Player -> bool) (f : Player -> Player)
  (d : dict) :
  Forall (fun kv => c (snd kv) = false) d -> modify_first c f d = d.
Proof.
  induction 1 as [| [k' v] rest Hv _ IH]; simpl; [reflexivity|].
  simpl in Hv. now rewrite Hv, IH.
Qed.

(** *** The end of a tick *)

(** [process_actions] in a playing match, once the batch has run. *)
Lemma process_actions_playing (g g1 : BoxingGame) (t0 t1 t2 : float)
  (actions : list action_data) :
  state g = PLAYING ->
  process_batch t0 actions (set_last_update_time (Some t0) g) = (Ret tt, g1) ->
  process_actions t0 t1 t2 actions g =
  match _check_game_conditions t1 t2 g1 with
  | (Ret _, g2) => (Ret g2, g2)
  | (Raise e, g2) => (Raise e, g2)
  end.
Proof.
  intros Hs Hb. unfold process_actions, bind, get, get_state.
  rewrite Hs. cbn [GameState_eqb negb]. unfold modify at 1. rewrite Hb.
  destruct (_check_game_conditions t1 t2 g1) as [[[] | e] g2]; reflexivity.
Qed.

(** C3: in a playing match, when the batch has run and some player has a
    health of 0 or less, [knocked_out] being the first such player, the call
    finishes the match; the first player in iteration order whose id is not
    the one of [knocked_out] gets 50 points more, and nothing else changes:
    the round counter and the start time are as the batch left them, so the
    time limit has not been looked at. *)
Theorem knockout_finishes_match (g g1 : BoxingGame) (t0 t1 t2 : float)
  (actions : list action_data) (knocked_out : Player) :
  state g = PLAYING ->
  process_batch t0 actions (set_last_update_time (Some t0) g) = (Ret tt, g1) ->
  find (fun p => health p <=? 0) (values (players g1)) = Some knocked_out ->
  exists g2,
    process_actions t0 t1 t2 actions g = (Ret g2, g2) /\
    state g2 = FINISHED /\
    current_round g2 = current_round g1 /\
    game_start_time g2 = game_start_time g1 /\
    last_update_time g2 = last_update_time g1 /\
    (forall pre k winner post,
        players g1 = (pre ++ (k, winner) :: post)%list ->
        Forall (fun kv => id (snd kv) = id knocked_out) pre ->
        id winner <> id knocked_out ->
        players g2
        = (pre ++ (k, set_score (score winner + 50) winner) :: post)%list) /\
    (Forall (fun kv => id (snd kv) = id knocked_out) (players g1) ->
     players g2 = players g1).
Proof.
  intros Hs Hb Hko.
  rewrite (process_actions_playing g g1 t0 t1 t2 actions Hs Hb).
  unfold _check_game_conditions, bind, get. rewrite Hko.
  unfold _handle_knockout, bind, modify_players, modify.
  eexists. split; [reflexivity|]. cbn [state current_round game_start_time
    last_update_time players set_state set_players].
  repeat (split; [reflexivity|]). split.
  - intros pre k winner post Hp Hpre Hw. rewrite Hp.
    apply (modify_first_app _ (fun p => set_score (score p + 50) p)).
    + eapply Forall_impl; [|exact Hpre]. intros kv Hid. cbn beta.
      rewrite Hid, String.eqb_refl. reflexivity.
    + apply negb_true_iff, String.eqb_neq, Hw.
  - intros Hall. apply modify_first_none.
    eapply Forall_impl; [|exact Hall]. intros kv Hid. cbn beta.
    rewrite Hid, String.eqb_refl. reflexivity.
Qed.

(** *** The ranking at the end of a round *)

Lemma key_leb_refl (a : Z * Z) : key_leb a a = true.
Proof.
  unfold key_leb. rewrite Z.eqb_refl, Z.leb_refl. now rewrite orb_true_r.
Qed.

Lemma key_leb_spec (a b : Z * Z) :
  key_leb a b = true <->
  fst a < fst b \/ (fst a = fst b /\ snd a <= snd b).
Proof.
  unfold key_leb.
  rewrite orb_true_iff, andb_true_iff, Z.ltb_lt, Z.eqb_eq, Z.leb_le.
  reflexivity.
Qed.

Lemma key_leb_total (a b : Z * Z) : key_leb a b = false -> key_leb b a = true.
Proof.
  intros H. apply key_leb_spec.
  assert (Hn : ~ (fst a < fst b \/ (fst a = fst b /\ snd a <= snd b))).
  { rewrite <- key_leb_spec. now rewrite H. }
  lia.
Qed.

Lemma key_leb_trans (a b c : Z * Z) :
  key_leb a b = true -> key_leb b c = true -> key_leb a c = true.
Proof. rewrite !key_leb_spec. lia. Qed.

Lemma in_insert_sorted (x y : nat * Player) (s : list (nat * Player)) :
  In y (insert_sorted x s) <-> y = x \/ In y s.
Proof.
  induction s as [| z s IH]; simpl.
  - intuition congruence.
  - destruct (key_leb _ _); simpl; [intuition congruence|].
    rewrite IH. intuition congruence.
Qed.

Lemma in_sort_ascending (y : nat * Player) (l : list (nat * Player)) :
  In y (sort_ascending l) <-> In y l.
Proof.
  induction l as [| x l IH]; simpl; [reflexivity|].
  rewrite in_insert_sorted, IH. intuition congruence.
Qed.

(** Of a sorted list with a new element inserted, the last element is the
    new one exactly when no element is at least as large. *)
Lemma insert_sorted_snoc (x w : nat * Player) (s : list (nat * Player)) :
  exists s',
    insert_sorted x (s ++ [w])%list =
    (s' ++ [if existsb (fun y => key_leb (sort_key (snd x))
                                          (sort_key (snd y)))
                       (s ++ [w])%list
            then w else x])%list.
Proof.
  induction s as [| y s [s' IH]]; simpl.
  - destruct (key_leb _ _); simpl; [now exists [x] | now exists [w]].
  - destruct (key_leb (sort_key (snd x)) (sort_key (snd y))); simpl.
    + now exists (x :: y :: s).
    + exists (y :: s'). now rewrite IH.
Qed.

Lemma sort_ascending_snoc (l : list (nat * Player)) :
  l <> [] -> exists s w, sort_ascending l = (s ++ [w])%list.
Proof.
  destruct l as [| x l]; [congruence|]. intros _. revert x.
  induction l as [| y l IH]; intros x; simpl.
  - now exists [], x.
  - destruct (IH y) as (s & w & Hs). simpl in Hs. rewrite Hs.
    destruct (insert_sorted_snoc x w s) as [s' Hs']. rewrite Hs'. eauto.
Qed.

Lemma last_sort_ascending_best (l : list (nat * Player)) :
  decreasing l ->
  forall s w, sort_ascending l = (s ++ [w])%list -> best l w.
Proof.
  induction l as [| x l IH]; intros Hdec s w Hs.
  - destruct s; discriminate.
  - destruct Hdec as [Hx Hdec]. simpl in Hs.
    destruct l as [| y l'].
    + simpl in Hs. destruct s as [| ? [| ? ?]]; try discriminate.
      injection Hs as <-. repeat split.
      * now left.
      * intros y [<- | []]. apply key_leb_refl.
      * intros y [<- | []] _. apply Nat.le_refl.
    + destruct (sort_ascending_snoc (y :: l') ltac:(congruence))
        as (s0 & w0 & Hs0).
      specialize (IH Hdec s0 w0 Hs0). destruct IH as (Hin & Hmax & Hfirst).
      rewrite Hs0 in Hs.
      destruct (insert_sorted_snoc x w0 s0) as [s' Hs']. rewrite Hs' in Hs.
      apply app_inj_tail in Hs. destruct Hs as [_ Hw].
      rewrite <- Hs0 in Hw.
      destruct (existsb _ _) eqn:E.
      * subst w. apply existsb_exists in E. destruct E as (z & Hz & Hxz).
        apply -> in_sort_ascending in Hz.
        assert (Hxw : key_leb (sort_key (snd x)) (sort_key (snd w0)) = true)
          by (eapply key_leb_trans; [exact Hxz | apply Hmax; exact Hz]).
        repeat split.
        -- now right.
        -- intros u [<- | Hu]; auto.
        -- intros u [<- | Hu] Hle; auto.
           rewrite Forall_forall in Hx. specialize (Hx w0 Hin). lia.
      * subst w.
        assert (Hall : forall u, In u (y :: l') ->
                  key_leb (sort_key (snd x)) (sort_key (snd u)) = false).
        { intros u Hu. apply <- in_sort_ascending in Hu.
          destruct (key_leb (sort_key (snd x)) (sort_key (snd u))) eqn:E';
            [|reflexivity].
          assert (existsb (fun y0 => key_leb (sort_key (snd x))
                                       (sort_key (snd y0)))
                    (sort_ascending (y :: l')) = true)
            by (apply existsb_exists; eauto).
          congruence. }
        repeat split.
        -- now left.
        -- intros u [<- | Hu]; [apply key_leb_refl|].
           apply key_leb_total, Hall, Hu.
        -- intros u [<- | Hu] Hle; [apply Nat.le_refl|].
           rewrite (Hall u Hu) in Hle. discriminate.
Qed.

Lemma in_enumerate_from (vs : list Player) :
  forall s j p,
    In (j, p) (combine (seq s (List.length vs)) vs) <->
    (s <= j)%nat /\ nth_error vs (j - s) = Some p.
Proof.
  induction vs as [| v vs IH]; intros s j p; simpl.
  - split; [tauto|]. intros [_ H]. destruct (j - s)%nat; discriminate.
  - rewrite IH. split.
    + intros [H | [Hle Hn]].
      * injection H as <- <-. rewrite Nat.sub_diag. auto.
      * split; [lia|].
        replace (j - s)%nat with (S (j - S s)) by lia. exact Hn.
    + intros [Hle Hn].
      destruct (Nat.eq_dec j s) as [-> | Hne].
      * rewrite Nat.sub_diag in Hn. simpl in Hn. injection Hn as ->. now left.
      * right. split; [lia|].
        replace (j - s)%nat with (S (j - S s)) in Hn by lia. exact Hn.
Qed.

Lemma in_enumerate (vs : list Player) (j : nat) (p : Player) :
  In (j, p) (enumerate vs) <-> nth_error vs j = Some p.
Proof.
  unfold enumerate. rewrite in_enumerate_from, Nat.sub_0_r.
  split; [tauto | split; [lia | assumption]].
Qed.

Lemma decreasing_snoc (l : list (nat * Player)) (x : nat * Player) :
  decreasing l -> Forall (fun y => (fst x < fst y)%nat) l ->
  decreasing (l ++ [x]).
Proof.
  induction l as [| y l IH]; simpl; intros Hd Hx.
  - auto.
  - destruct Hd as [Hy Hd]. inversion Hx; subst. split; [|auto].
    apply Forall_app. split; [exact Hy | constructor; auto].
Qed.

Lemma decreasing_rev_enumerate_from (vs : list Player) :
  forall s, decreasing (rev (combine (seq s (List.length vs)) vs)).
Proof.
  induction vs as [| v vs IH]; intros s; simpl; [exact I|].
  apply decreasing_snoc; [apply IH|].
  apply Forall_forall. intros [j p] Hin. apply in_rev in Hin.
  apply in_enumerate_from in Hin. simpl. lia.
Qed.

(** The head of the ranking: a player of the largest pair of health and
    score, and the first in iteration order among those. *)
Lemma round_winner_spec (vs : list Player) (i : nat) (w : Player)
  (rest : list (nat * Player)) :
  sort_reverse (enumerate vs) = (i, w) :: rest ->
  nth_error vs i = Some w /\
  (forall p, In p vs -> key_leb (sort_key p) (sort_key w) = true) /\
  (forall j p, nth_error vs j = Some p ->
               key_leb (sort_key w) (sort_key p) = true -> (i <= j)%nat).
Proof.
  unfold sort_reverse. intros H.
  apply (f_equal (@rev _)) in H. rewrite rev_involutive in H. simpl in H.
  pose proof (last_sort_ascending_best _
                (decreasing_rev_enumerate_from vs 0) _ _ H)
    as (Hin & Hmax & Hfirst).
  fold (enumerate vs) in Hin, Hmax, Hfirst.
  split; [|split].
  - apply in_enumerate. apply in_rev. exact Hin.
  - intros p Hp. apply In_nth_error in Hp. destruct Hp as [j Hj].
    apply (Hmax (j, p)). apply -> in_rev. now apply in_enumerate.
  - intros j p Hj Hle.
    apply (Hfirst (j, p)); [|exact Hle].
    apply -> in_rev. now apply in_enumerate.
Qed.

Lemma sort_reverse_nonempty (vs : list Player) :
  vs <> [] -> exists i w rest, sort_reverse (enumerate vs) = (i, w) :: rest.
Proof.
  intros Hne. unfold sort_reverse.
  destruct (sort_ascending_snoc (rev (enumerate vs))) as (s & [i w] & Hs).
  - destruct vs as [| v vs]; [congruence|]. unfold enumerate. simpl.
    intros H. apply app_eq_nil in H. destruct H; discriminate.
  - rewrite Hs, rev_app_distr. simpl. eauto.
Qed.

Lemma nth_error_modify_nth (i j : nat) (f : Player -> Player) (d : dict) :
  nth_error (modify_nth i f d) j =
  option_map (fun kv => (fst kv, if Nat.eqb j i then f (snd kv) else snd kv))
             (nth_error d j).
Proof.
  revert i j. induction d as [| [k v] rest IH]; intros i j; simpl.
  - destruct j; reflexivity.
  - destruct i, j; simpl; try reflexivity.
    + clear IH. destruct (nth_error rest j) as [[k' v']|]; reflexivity.
    + apply IH.
Qed.

Lemma nth_error_modify_all (j : nat) (f : Player -> Player) (d : dict) :
  nth_error (modify_all f d) j =
  option_map (fun kv => (fst kv, f (snd kv))) (nth_error d j).
Proof. unfold modify_all. apply nth_error_map. Qed.

Lemma length_modify_nth (i : nat) (f : Player -> Player) (d : dict) :
  List.length (modify_nth i f d) = List.length d.
Proof.
  symmetry. apply (pointwise_length (fun _ _ => True)).
  apply pointwise_modify_nth; auto.
Qed.

Lemma length_enumerate (vs : list Player) :
  List.length (enumerate vs) = List.length vs.
Proof.
  unfold enumerate. rewrite length_combine, length_seq. apply Nat.min_id.
Qed.

Lemma key_leb_ranks (p w : Player) :
  key_leb (sort_key p) (sort_key w) = true <-> ranks_at_most p w.
Proof. apply key_leb_spec. Qed.

(** What the end of a round does to the state. *)
Lemma handle_round_end_eq (now : float) (g : BoxingGame) :
  exists winner : option nat,
    (match winner with
     | None => (List.length (players g) < 2)%nat
     | Some i =>
         (2 <= List.length (players g))%nat /\
         exists w rest,
           sort_reverse (enumerate (values (players g))) = (i, w) :: rest
     end) /\
    let bonus :=
      match winner with
      | Some i => modify_nth i (fun p => set_score (score p + 25) p)
      | None => fun d => d
      end in
    _handle_round_end now g =
    (Ret tt,
     if max_rounds g <? current_round g + 1 then
       set_state FINISHED
         (set_current_round (current_round g + 1)
            (set_players (bonus (players g)) g))
     else
       set_players
         (modify_all (fun p => set_is_dodging false
                                 (set_is_blocking false (set_health 100 p)))
            (bonus (players g)))
         (set_game_start_time (Some now)
            (set_current_round (current_round g + 1)
               (set_players (bonus (players g)) g)))).
Proof.
  unfold _handle_round_end, bind, get.
  rewrite length_enumerate. unfold values. rewrite length_map.
  fold (values (players g)).
  destruct (2 <=? Z.of_nat (List.length (players g))) eqn:E.
  - apply Z.leb_le in E.
    destruct (sort_reverse_nonempty (values (players g))) as (i & w & rest & Hs).
    { unfold values. destruct (players g); simpl in *; [lia | congruence]. }
    exists (Some i). split; [split; [lia | eauto]|].
    rewrite Hs. cbn zeta. unfold modify_players, modify.
    cbn [max_rounds current_round players set_players set_current_round].
    destruct (max_rounds g <? current_round g + 1); reflexivity.
  - apply Z.leb_gt in E.
    exists None. split; [lia|].
    cbn zeta. unfold ret, modify_players, modify.
    cbn [max_rounds current_round players set_players set_current_round].
    destruct g as [st pl rt cr mr gst lut]. cbn.
    destruct (mr <? cr + 1); reflexivity.
Qed.

(** *** What a batch leaves alone *)

Lemma frame_modify_players (g0 : BoxingGame) (f : dict -> dict) :
  preserves (same_frame g0) (modify_players f).
Proof. intros g H. exact H. Qed.

Lemma frame_process_single_action (g0 : BoxingGame) (action : GameAction) :
  preserves (same_frame g0) (_process_single_action action).
Proof.
  unfold _process_single_action.
  apply preserves_bind_get. intros g _.
  destruct (negb _); [auto with pres|].
  destruct (MoveType_of_value _) as [mt|]; [|auto with pres].
  apply preserves_bind; [apply frame_modify_players|]. intros _.
  destruct (is_defensive mt).
  { destruct mt; apply frame_modify_players. }
  destruct (is_offensive mt); [|auto with pres].
  apply preserves_bind_get. intros g1 _.
  destruct (_get_opponent _ g1) as [[oid opp]|]; [|auto with pres].
  apply preserves_bind_lift. intros d _.
  apply preserves_bind; [apply frame_modify_players|]. intros _.
  destruct (0 <? d); [apply frame_modify_players | auto with pres].
Qed.

Lemma frame_process_batch (g0 : BoxingGame) (t : float)
  (actions : list action_data) :
  preserves (same_frame g0) (process_batch t actions).
Proof.
  induction actions as [| a rest IH]; simpl; [auto with pres|].
  apply preserves_bind; [|intros _; exact IH].
  unfold process_action_data.
  destruct (key_move a); [|auto with pres].
  destruct (key_confidence a); [|auto with pres].
  apply frame_process_single_action.
Qed.

Lemma same_frame_refl (g : BoxingGame) : same_frame g g.
Proof. repeat split. Qed.

Lemma after_round_no_bonus (p : Player) :
  after_round true 0 p = p.
Proof. destruct p. unfold after_round. simpl. f_equal. lia. Qed.

(** C4, as the engine has it: in a playing match, when the batch has run,
    nobody is knocked out, the start time is set and is not zero, and the
    time elapsed since the start is at least the round time, the round ends.
    With two players or more, the winner is a player whose pair of health
    and score is the largest, the first such player in iteration order, and
    gets exactly 25 points more; with fewer than two players nobody gets
    points.  The round counter goes up by one.  When it then exceeds the
    number of rounds the match is finished, and health, posture and start
    time stay; otherwise every player is back at a health of 100 with a
    neutral posture, and the start time is the time read then.  Names, last
    moves and the other scores are kept. *)
Theorem round_ends_at_time_limit (g g1 : BoxingGame) (t0 t1 t2 : float)
  (actions : list action_data) (start : float) :
  state g = PLAYING ->
  process_batch t0 actions (set_last_update_time (Some t0) g) = (Ret tt, g1) ->
  find (fun p => health p <=? 0) (values (players g1)) = None ->
  game_start_time g1 = Some start ->
  F64.truthy start = true ->
  F64.geb (F64.sub t1 start) (F64.of_int (round_time g1)) = true ->
  exists (g2 : BoxingGame) (winner : option nat),
    process_actions t0 t1 t2 actions g = (Ret g2, g2) /\
    current_round g2 = current_round g1 + 1 /\
    match winner with
    | None => (List.length (players g1) < 2)%nat
    | Some i =>
        (2 <= List.length (players g1))%nat /\
        exists w,
          nth_error (values (players g1)) i = Some w /\
          (forall p, In p (values (players g1)) -> ranks_at_most p w) /\
          (forall j p, nth_error (values (players g1)) j = Some p ->
                       ranks_at_most w p -> (i <= j)%nat)
    end /\
    let finished := max_rounds g1 <? current_round g1 + 1 in
    state g2 = (if finished then FINISHED else PLAYING) /\
    game_start_time g2 = (if finished then Some start else Some t2) /\
    List.length (players g2) = List.length (players g1) /\
    forall j k p,
      nth_error (players g1) j = Some (k, p) ->
      nth_error (players g2) j
      = Some (k, after_round finished (round_bonus winner j) p).
Proof.
  intros Hs Hb Hko Hstart Htruthy Helapsed.
  rewrite (process_actions_playing g g1 t0 t1 t2 actions Hs Hb).
  assert (Hs1 : state g1 = PLAYING).
  { pose proof (frame_process_batch _ t0 actions _
                  (same_frame_refl (set_last_update_time (Some t0) g))) as Hf.
    unfold exec in Hf. rewrite Hb in Hf. destruct Hf as [Hf _].
    simpl in Hf. congruence. }
  unfold _check_game_conditions, bind, get.
  rewrite Hko, Hstart, Htruthy, Helapsed.
  destruct (handle_round_end_eq t2 g1) as (winner & Hw & Heq).
  cbn zeta in Heq. rewrite Heq. clear Heq.
  eexists. exists winner. split; [reflexivity|].
  assert (Hbonus : forall j k p,
    nth_error (players g1) j = Some (k, p) ->
    nth_error (match winner with
               | Some i => modify_nth i (fun p => set_score (score p + 25) p)
               | None => fun d => d
               end (players g1)) j
    = Some (k, after_round true (round_bonus winner j) p)).
  { intros j k p Hj. destruct winner as [i|]; simpl.
    - rewrite nth_error_modify_nth, Hj. simpl.
      destruct (Nat.eqb j i); [reflexivity|].
      now rewrite after_round_no_bonus.
    - now rewrite after_round_no_bonus. }
  assert (Hlen : List.length
            (match winner with
             | Some i => modify_nth i (fun p => set_score (score p + 25) p)
             | None => fun d => d
             end (players g1)) = List.length (players g1)).
  { destruct winner; [apply length_modify_nth | reflexivity]. }
  split.
  { destruct (max_rounds g1 <? current_round g1 + 1); reflexivity. }
  split.
  { destruct winner as [i|]; [|exact Hw].
    destruct Hw as [Hlen2 (w & rest & Hsort)]. split; [exact Hlen2|].
    exists w. destruct (round_winner_spec _ _ _ _ Hsort) as (Hn & Hmax & Hfst).
    split; [exact Hn|]. split.
    - intros p Hp. apply key_leb_ranks. auto.
    - intros j p Hj Hr. apply (Hfst j p Hj). now apply key_leb_ranks. }
  cbn zeta.
  destruct (max_rounds g1 <? current_round g1 + 1);
    cbn [state game_start_time players set_state set_players
         set_current_round set_game_start_time].
  - rewrite Hs1 || idtac. repeat (split; [first [reflexivity | assumption]|]).
    exact Hbonus.
  - split; [exact Hs1|]. split; [reflexivity|]. split.
    { unfold modify_all. now rewrite length_map. }
    intros j k p Hj. rewrite nth_error_modify_all, (Hbonus j k p Hj).
    reflexivity.
Qed.

(** *** Failures *)

Lemma process_batch_app (t : float) (l1 l2 : list action_data)
  (g : BoxingGame) :
  process_batch t (l1 ++ l2) g =
  match process_batch t l1 g with
  | (Ret _, g') => process_batch t l2 g'
  | (Raise e, g') => (Raise e, g')
  end.
Proof.
  revert g. induction l1 as [| a l1 IH]; intros g; simpl; [reflexivity|].
  unfold bind. destruct (process_action_data t a g) as [[[] | e] g'].
  - apply IH.
  - reflexivity.
Qed.

Lemma process_actions_raise (g g1 : BoxingGame) (t0 t1 t2 : float)
  (actions : list action_data) (e : exn) :
  state g = PLAYING ->
  process_batch t0 actions (set_last_update_time (Some t0) g) = (Raise e, g1) ->
  process_actions t0 t1 t2 actions g = (Raise e, g1).
Proof.
  intros Hs Hb. unfold process_actions, bind, get, get_state.
  rewrite Hs. cbn [GameState_eqb negb]. unfold modify at 1. now rewrite Hb.
Qed.

(** C5 does not hold: the second element of the batch has the move ['kick'];
    the call raises, and the state it leaves is not the state before the
    call: the jab of the first element has landed and the time of the last
    update is set. *)
Lemma failed_batch_changes_state :
  state two_player_game = PLAYING /\
  last_update_time two_player_game = None /\
  option_map health (dict_get "P2" (players two_player_game)) = Some 100 /\
  let r := process_actions (F64.of_int 2) (F64.of_int 2) (F64.of_int 2)
             batch_with_kick two_player_game in
  fst r = Raise (ValueError_not_a_valid_MoveType "kick") /\
  last_update_time (snd r) = Some (F64.of_int 2) /\
  option_map health (dict_get "P2" (players (snd r))) = Some 91 /\
  snd r <> two_player_game.
Proof.
  vm_compute. repeat (split; [reflexivity|]). discriminate.
Qed.

(** C5, as the engine has it.  [start_game] without players raises and
    leaves the state as it was.  In a playing match, after elements that
    have all run, an element of a batch that has a move and a confidence and
    whose move is not a value of the enumeration, from a registered actor,
    makes [process_actions] raise a [ValueError] that carries the string;
    the state left is the one reached by the elements before it, with the
    time of the last update set: the element itself changes nothing, and
    neither the elements after it nor the checks at the end of the tick are
    run.  From an actor that is not registered the same element is skipped
    without an error: the call is the one of the batch without it. *)
Theorem failures_and_the_state (g0 : BoxingGame) (now : float)
  (g g1 : BoxingGame) (t0 t1 t2 : float) (before after : list action_data)
  (bad : action_data) (mv : string) (c : float) :
  state g = PLAYING ->
  process_batch t0 before (set_last_update_time (Some t0) g) = (Ret tt, g1) ->
  key_move bad = Some mv ->
  key_confidence bad = Some c ->
  MoveType_of_value mv = None ->
  (players g0 = [] ->
   start_game now g0 = (Raise ValueError_need_at_least_1_player, g0)) /\
  (dict_mem (actor_of bad) (players g1) = true ->
   process_actions t0 t1 t2 (before ++ bad :: after) g
   = (Raise (ValueError_not_a_valid_MoveType mv), g1)) /\
  (dict_mem (actor_of bad) (players g1) = false ->
   process_actions t0 t1 t2 (before ++ bad :: after) g
   = process_actions t0 t1 t2 (before ++ after) g).
Proof.
  intros Hs Hb Hmv Hc Hparse.
  assert (Hbad : process_action_data t0 bad g1 =
                 if dict_mem (actor_of bad) (players g1)
                 then (Raise (ValueError_not_a_valid_MoveType mv), g1)
                 else (Ret tt, g1)).
  { unfold process_action_data. rewrite Hmv, Hc.
    unfold _process_single_action, bind, get. cbn [player_id move_type].
    fold (actor_of bad). destruct (dict_mem _ _); cbn [negb].
    - rewrite Hparse. reflexivity.
    - reflexivity. }
  split; [|split].
  - intros Hp. unfold start_game, bind, get. rewrite Hp. reflexivity.
  - intros Hmem. apply process_actions_raise; [exact Hs|].
    rewrite process_batch_app, Hb. simpl. unfold bind.
    now rewrite Hbad, Hmem.
  - intros Hmem.
    assert (Heq : process_batch t0 (before ++ bad :: after)
                    (set_last_update_time (Some t0) g)
                  = process_batch t0 (before ++ after)
                      (set_last_update_time (Some t0) g)).
    { rewrite !process_batch_app, Hb. simpl. unfold bind.
      now rewrite Hbad, Hmem. }
    unfold process_actions, bind, get, get_state. rewrite Hs.
    cbn [GameState_eqb negb]. unfold modify. now rewrite Heq.
Qed.

(** *** The strings of the moves *)

Lemma MoveType_of_value_spec (s : string) (mt : MoveType) :
  MoveType_of_value s = Some mt <-> s = MoveType_value mt.
Proof.
  split.
  - intros H. apply find_some in H. destruct H as [_ H].
    apply String.eqb_eq in H. auto.
  - intros ->. destruct mt; reflexivity.
Qed.

Lemma MoveType_of_value_None (s : string) :
  MoveType_of_value s = None <-> forall mt, s <> MoveType_value mt.
Proof.
  split.
  - intros H mt Hs. apply MoveType_of_value_spec in Hs. congruence.
  - intros H. destruct (MoveType_of_value s) as [mt|] eqn:E; [|reflexivity].
    apply MoveType_of_value_spec in E. now destruct (H mt).
Qed.

Lemma calculate_damage_raises (mt : MoveType) (c : float) (opp : Player)
  (e : exn) :
  _calculate_damage mt c opp = Raise e ->
  e = ValueError_cannot_convert_float_NaN_to_integer \/
  e = OverflowError_cannot_convert_float_infinity_to_integer.
Proof.
  assert (Hint : forall x e', int_of_float x = Raise e' ->
            e' = ValueError_cannot_convert_float_NaN_to_integer \/
            e' = OverflowError_cannot_convert_float_infinity_to_integer).
  { intros x e'. unfold int_of_float.
    destruct (F64.trunc x); [discriminate|].
    destruct x; intros H; injection H as <-; auto. }
  unfold _calculate_damage.
  destruct (int_of_float _) as [d0 | e0] eqn:E0.
  - destruct (is_blocking opp).
    + destruct (int_of_float (F64.mul (F64.of_int d0) _)) as [d1 | e1] eqn:E1;
        [discriminate|].
      intros H. injection H as <-. eapply Hint, E1.
    + discriminate.
  - intros H. injection H as <-. eapply Hint, E0.
Qed.

Lemma last_move_dict_modify (pid s k : string) (f : Player -> Player) :
  (forall p, last_move (f p) = last_move p) ->
  preserves (last_move_is pid s) (modify_players (dict_modify k f)).
Proof.
  intros Hf g H. unfold last_move_is, exec, modify_players, modify in *.
  cbn [snd players set_players].
  destruct (String.eqb k pid) eqn:E.
  - apply String.eqb_eq in E. subst k. rewrite dict_get_modify_same.
    destruct (dict_get pid (players g)); [|discriminate].
    cbn in *. now rewrite Hf.
  - apply String.eqb_neq in E. now rewrite dict_get_modify_other.
Qed.

(** The ways in which a single action ends. *)
Lemma process_single_action_outcome (action : GameAction) (g g' : BoxingGame)
  (o : outcome unit) :
  _process_single_action action g = (o, g') ->
  o = Ret tt \/
  (MoveType_of_value (move_type action) = None /\
   o = Raise (ValueError_not_a_valid_MoveType (move_type action))) \/
  o = Raise ValueError_cannot_convert_float_NaN_to_integer \/
  o = Raise OverflowError_cannot_convert_float_infinity_to_integer.
Proof.
  unfold _process_single_action, bind, get.
  destruct (negb _); [intros [= <- <-]; now left|].
  destruct (MoveType_of_value _) as [mt|];
    [|intros [= <- <-]; right; left; split; reflexivity].
  unfold modify_players at 1. unfold modify at 1.
  destruct (is_defensive mt); [destruct mt; intros [= <- <-]; now left|].
  destruct (is_offensive mt); [|intros [= <- <-]; now left].
  destruct (_get_opponent _ _) as [[oid opp]|]; [|intros [= <- <-]; now left].
  unfold lift.
  destruct (_calculate_damage _ _ _) as [d | e] eqn:E.
  - unfold modify_players, modify.
    destruct (0 <? d); intros [= <- <-]; now left.
  - intros [= <- <-]. right. right.
    destruct (calculate_damage_raises _ _ _ _ E) as [-> | ->]; auto.
Qed.

(** Once the move is recognised, it is recorded as the last move of the
    actor, whatever happens afterwards. *)
Lemma last_move_recorded (action : GameAction) (g : BoxingGame)
  (mt : MoveType) :
  dict_mem (player_id action) (players g) = true ->
  MoveType_of_value (move_type action) = Some mt ->
  last_move_is (player_id action) (move_type action)
               (exec (_process_single_action action) g).
Proof.
  intros Hmem Hmt.
  unfold exec, _process_single_action, bind, get. rewrite Hmem, Hmt.
  cbn [negb]. unfold modify_players at 1. unfold modify at 1.
  set (g1 := set_players _ g).
  assert (H1 : last_move_is (player_id action) (move_type action) g1).
  { unfold last_move_is, g1. cbn [players set_players].
    rewrite dict_get_modify_same. unfold dict_mem in Hmem.
    destruct (dict_get _ _); [reflexivity | discriminate]. }
  revert H1. generalize g1. clear g1.
  match goal with
  | |- forall g1, _ -> last_move_is ?p ?s (snd (?c g1)) =>
      change (preserves (last_move_is p s) c)
  end.
  destruct (is_defensive mt).
  { destruct mt; apply last_move_dict_modify; reflexivity. }
  destruct (is_offensive mt); [|auto with pres].
  apply preserves_bind_get. intros g2 _.
  destruct (_get_opponent _ g2) as [[oid opp]|]; [|auto with pres].
  apply preserves_bind_lift. intros d _.
  apply preserves_bind; [apply last_move_dict_modify; reflexivity|].
  intros _. destruct (0 <? d); [|auto with pres].
  apply last_move_dict_modify; reflexivity.
Qed.

(** What a defensive move does to the posture of the actor. *)
Lemma defensive_move_posture (action : GameAction) (g : BoxingGame)
  (mt : MoveType) :
  dict_mem (player_id action) (players g) = true ->
  MoveType_of_value (move_type action) = Some mt ->
  is_defensive mt = true ->
  exists g',
    _process_single_action action g = (Ret tt, g') /\
    posture_of (player_id action) g'
    = Some (match mt with BLOCK => true | _ => false end,
            match mt with DODGE => true | _ => false end).
Proof.
  intros Hmem Hmt Hdef.
  unfold _process_single_action, bind, get. rewrite Hmem, Hmt.
  cbn [negb]. unfold modify_players at 1. unfold modify at 1. rewrite Hdef.
  unfold dict_mem in Hmem.
  destruct (dict_get (player_id action) (players g)) as [p|] eqn:Hp;
    [|discriminate].
  destruct mt; try discriminate;
    (eexists; split; [reflexivity|]);
    unfold posture_of; cbn [players set_players];
    rewrite !dict_get_modify_same, Hp; reflexivity.
Qed.

(** C6 does not hold: the string ['JAB'] is equal to the value of the jab
    when case is ignored, and the engine raises on it. *)
Lemma uppercase_move_is_rejected :
  eqb_ignore_case "JAB" (MoveType_value JAB) = true /\
  dict_mem "P1" (players two_player_game) = true /\
  _process_single_action
    (mkGameAction "P1" "JAB" F64.f0_9 (F64.of_int 2)) two_player_game
  = (Raise (ValueError_not_a_valid_MoveType "JAB"), two_player_game).
Proof. vm_compute. repeat split. Qed.

(** C6, as the engine has it: a move string of a registered actor is
    recognised exactly when it is equal, character by character, to one of
    the seven lower-case values.  A string equal to none of them raises a
    [ValueError] that carries it and changes nothing.  A recognised string
    never raises that error, is recorded as the last move of the actor, and
    a defensive move sets the posture of its kind. *)
Theorem move_strings_are_matched_exactly (g : BoxingGame)
  (action : GameAction) :
  dict_mem (player_id action) (players g) = true ->
  (forall mt, MoveType_of_value (move_type action) = Some mt <->
              move_type action = MoveType_value mt) /\
  ((forall mt, move_type action <> MoveType_value mt) ->
   _process_single_action action g
   = (Raise (ValueError_not_a_valid_MoveType (move_type action)), g)) /\
  (forall mt,
      move_type action = MoveType_value mt ->
      (forall v, fst (_process_single_action action g)
                 <> Raise (ValueError_not_a_valid_MoveType v)) /\
      last_move_is (player_id action) (MoveType_value mt)
                   (exec (_process_single_action action) g) /\
      (is_defensive mt = true ->
       fst (_process_single_action action g) = Ret tt /\
       posture_of (player_id action)
                  (exec (_process_single_action action) g)
       = Some (match mt with BLOCK => true | _ => false end,
               match mt with DODGE => true | _ => false end))).
Proof.
  intros Hmem. split; [|split].
  - intros mt. apply MoveType_of_value_spec.
  - intros Hnone. apply MoveType_of_value_None in Hnone.
    unfold _process_single_action, bind, get. rewrite Hmem, Hnone.
    reflexivity.
  - intros mt Hs. pose proof Hs as Hmt.
    apply MoveType_of_value_spec in Hmt. split; [|split].
    + intros v Hv.
      destruct (_process_single_action action g) as [o g'] eqn:E.
      cbn [fst] in Hv.
      destruct (process_single_action_outcome action g g' o E)
        as [H | [[H _] | [H | H]]]; congruence.
    + rewrite <- Hs. now apply (last_move_recorded action g mt).
    + intros Hdef.
      destruct (defensive_move_posture action g mt Hmem Hmt Hdef)
        as (g' & Heq & Hpost).
      unfold exec. rewrite Heq. auto.
Qed.

(** *** Invariants of a batch, in general *)

Section BatchInvariant.

(** [P] is a property of the state that depends on the players only, and
    that an update of objects along [ok] keeps. *)
Variable P : BoxingGame -> Prop.
Variable ok : Player -> Player -> Prop.

Hypothesis P_frame :
  forall (f : BoxingGame -> BoxingGame) g,
    players (f g) = players g -> P g -> P (f g).
Hypothesis P_players :
  forall g d', pointwise ok (players g) d' -> P g -> P (set_players d' g).
Hypothesis ok_refl : forall p, ok p p.
Hypothesis ok_last_move :
  forall p m t, ok p (set_last_move_time t (set_last_move m p)).
Hypothesis ok_block :
  forall p b b', ok p (set_is_dodging b' (set_is_blocking b p)).
Hypothesis ok_dodge :
  forall p b b', ok p (set_is_blocking b' (set_is_dodging b p)).
Hypothesis ok_damage : forall p d, 0 <= d -> ok p (_apply_damage d p).
Hypothesis ok_score : forall p d, 0 < d -> ok p (set_score (score p + d) p).
Hypothesis ok_next_round :
  forall p, ok p (set_is_dodging false
                    (set_is_blocking false (set_health 100 p))).

Lemma inv_field (f : BoxingGame -> BoxingGame) :
  (forall g, players (f g) = players g) -> preserves P (modify f).
Proof. intros Hf g H. apply P_frame; auto. Qed.

Lemma inv_dict_modify (k : string) (f : Player -> Player) :
  (forall p, ok p (f p)) -> preserves P (modify_players (dict_modify k f)).
Proof.
  intros Hf g H. apply P_players; [|exact H].
  now apply pointwise_dict_modify.
Qed.

Lemma inv_modify_first (c : Player -> bool) (f : Player -> Player) :
  (forall p, ok p (f p)) -> preserves P (modify_players (modify_first c f)).
Proof.
  intros Hf g H. apply P_players; [|exact H].
  now apply pointwise_modify_first.
Qed.

Lemma inv_modify_nth (i : nat) (f : Player -> Player) :
  (forall p, ok p (f p)) -> preserves P (modify_players (modify_nth i f)).
Proof.
  intros Hf g H. apply P_players; [|exact H].
  now apply pointwise_modify_nth.
Qed.

Lemma inv_modify_all (f : Player -> Player) :
  (forall p, ok p (f p)) -> preserves P (modify_players (modify_all f)).
Proof.
  intros Hf g H. apply P_players; [|exact H].
  now apply pointwise_modify_all.
Qed.

Lemma inv_process_single_action (action : GameAction) :
  preserves P (_process_single_action action).
Proof.
  unfold _process_single_action.
  apply preserves_bind_get. intros g _.
  destruct (negb _); [auto with pres|].
  destruct (MoveType_of_value _) as [mt|]; [|auto with pres].
  apply preserves_bind; [apply inv_dict_modify; auto|]. intros _.
  destruct (is_defensive mt).
  { destruct mt; apply inv_dict_modify; auto. }
  destruct (is_offensive mt); [|auto with pres].
  apply preserves_bind_get. intros g1 _.
  destruct (_get_opponent _ g1) as [[oid opp]|]; [|auto with pres].
  apply preserves_bind_lift. intros d Hd.
  apply calculate_damage_nonneg in Hd.
  apply preserves_bind; [apply inv_dict_modify; auto|]. intros _.
  destruct (0 <? d) eqn:E; [|auto with pres].
  apply Z.ltb_lt in E. apply inv_dict_modify; auto.
Qed.

Lemma inv_process_batch (t : float) (actions : list action_data) :
  preserves P (process_batch t actions).
Proof.
  induction actions as [| a rest IH]; simpl; [auto with pres|].
  apply preserves_bind; [|intros _; exact IH].
  unfold process_action_data.
  destruct (key_move a); [|auto with pres].
  destruct (key_confidence a); [|auto with pres].
  apply inv_process_single_action.
Qed.

Lemma inv_check_game_conditions (t1 t2 : float) :
  preserves P (_check_game_conditions t1 t2).
Proof.
  unfold _check_game_conditions.
  apply preserves_bind_get. intros g _.
  destruct (find _ _).
  { unfold _handle_knockout.
    apply preserves_bind; [apply inv_modify_first; intros; apply ok_score;
                           lia|].
    intros _. now apply inv_field. }
  destruct (game_start_time g) as [start|]; [|auto with pres].
  destruct (F64.truthy start); [|auto with pres].
  destruct (F64.geb _ _); [|auto with pres].
  unfold _handle_round_end.
  apply preserves_bind_get. intros g0 _.
  apply preserves_bind.
  { destruct (2 <=? _); [|auto with pres].
    destruct (sort_reverse _) as [| [w ?] ?]; [auto with pres|].
    apply inv_modify_nth. intros; apply ok_score; lia. }
  intros _. apply preserves_bind; [now apply inv_field|].
  intros _. apply preserves_bind_get. intros g1 _.
  destruct (max_rounds g1 <? current_round g1); [now apply inv_field|].
  apply preserves_bind; [now apply inv_field|]. intros _.
  apply inv_modify_all. auto.
Qed.

Lemma inv_process_actions (t0 t1 t2 : float) (actions : list action_data) :
  preserves P (process_actions t0 t1 t2 actions).
Proof.
  unfold process_actions, get_state.
  apply preserves_bind_get. intros g _.
  destruct (negb _); [auto with pres|].
  apply preserves_bind; [now apply inv_field|]. intros _.
  apply preserves_bind; [apply inv_process_batch|]. intros _.
  apply preserves_bind; [apply inv_check_game_conditions|]. intros _.
  auto with pres.
Qed.

End BatchInvariant.

(** *** Scores *)

Lemma scores_not_below_players (g0 g : BoxingGame) (d' : dict) :
  pointwise (fun p p' => score p <= score p') (players g) d' ->
  scores_not_below g0 g -> scores_not_below g0 (set_players d' g).
Proof.
  intros Hpw H k p p' Hk Hk'. cbn [players set_players] in Hk'.
  pose proof (pointwise_dict_get _ _ _ k Hpw) as Hq. rewrite Hk' in Hq.
  destruct (dict_get k (players g)) as [p''|] eqn:E; [|contradiction].
  specialize (H k p p'' Hk E). lia.
Qed.

Lemma scores_process_actions (g0 : BoxingGame) (t0 t1 t2 : float)
  (actions : list action_data) :
  preserves (scores_not_below g0) (process_actions t0 t1 t2 actions).
Proof.
  apply (inv_process_actions _ (fun p p' => score p <= score p')).
  - intros f g Hf H k p p' Hk Hk'. rewrite Hf in Hk'. eauto.
  - apply scores_not_below_players.
  - intros; lia.
  - intros; simpl; lia.
  - intros; simpl; lia.
  - intros; simpl; lia.
  - intros; simpl; lia.
  - intros; simpl; lia.
  - intros; simpl; lia.
Qed.

Lemma scores_not_below_refl (g : BoxingGame) : scores_not_below g g.
Proof. intros k p p' H H'. rewrite H in H'. injection H' as <-. lia. Qed.

Lemma scores_not_below_same_players (g g' : BoxingGame) :
  players g' = players g -> scores_not_below g g'.
Proof.
  intros Hp k p p' H H'. rewrite Hp, H in H'. injection H' as <-. lia.
Qed.

Lemma dict_get_del (k k' : string) (d : dict) :
  dict_get k' (dict_del k d) =
  if String.eqb k k' then None else dict_get k' d.
Proof.
  induction d as [| [k0 v] rest IH]; simpl.
  - now destruct (String.eqb k k').
  - destruct (String.eqb k0 k) eqn:E; simpl.
    + apply String.eqb_eq in E. subst k0. rewrite IH.
      destruct (String.eqb k k'); reflexivity.
    + destruct (String.eqb k0 k') eqn:E'; [|exact IH].
      apply String.eqb_eq in E'. subst k0.
      rewrite String.eqb_sym, E. reflexivity.
Qed.

Lemma dict_get_set (k k' : string) (v : Player) (d : dict) :
  dict_get k' (dict_set k v d) =
  if String.eqb k k' then Some v else dict_get k' d.
Proof.
  induction d as [| [k0 v0] rest IH]; simpl; [reflexivity|].
  destruct (String.eqb k0 k) eqn:E; simpl.
  - apply String.eqb_eq in E. subst k0.
    destruct (String.eqb k k'); reflexivity.
  - rewrite IH. destruct (String.eqb k0 k') eqn:E'; [|reflexivity].
    apply String.eqb_eq in E'. subst k0.
    rewrite String.eqb_sym, E. reflexivity.
Qed.

(** C7 does not hold: the first player has 9 points; a registration under
    the same id leaves a player with 0 points. *)
Lemma registration_again_loses_score :
  let g := exec (process_actions (F64.of_int 2) (F64.of_int 2) (F64.of_int 2)
                   [event "P1" "jab" F64.f0_9]) two_player_game in
  option_map score (dict_get "P1" (players g)) = Some 9 /\
  option_map score
    (dict_get "P1" (players (run (AddPlayer "P1" "Al") g))) = Some 0.
Proof. vm_compute. split; reflexivity. Qed.

(** C7, as the engine has it: an operation other than a start, a reset and
    the registration of an id that is already registered never lowers the
    score of a player: whoever is registered before and after has at least
    the score of before.  This holds of a call of [process_actions] that
    raises as well. *)
Theorem scores_never_decrease (o : operation) (g : BoxingGame) :
  keeps_scores o g -> scores_not_below g (run o g).
Proof.
  intros Hk.
  destruct o as [pid nm | pid | now | | | | t0 t1 t2 actions | |];
    simpl in Hk; try contradiction; unfold run.
  - intros k p p' Hp Hp'. unfold exec, add_player, bind, modify_players,
      modify in Hp'. cbn in Hp'. rewrite dict_get_set in Hp'.
    destruct (String.eqb pid k) eqn:E.
    + apply String.eqb_eq in E. subst k. unfold dict_mem in Hk.
      rewrite Hp in Hk. discriminate.
    + rewrite Hp in Hp'. injection Hp' as <-. lia.
  - intros k p p' Hp Hp'. unfold exec, remove_player, bind, get in Hp'.
    destruct (dict_mem pid (players g)); cbn in Hp'.
    + rewrite dict_get_del in Hp'.
      destruct (String.eqb pid k); [discriminate|].
      rewrite Hp in Hp'. injection Hp' as <-. lia.
    + rewrite Hp in Hp'. injection Hp' as <-. lia.
  - now apply scores_not_below_same_players.
  - apply scores_not_below_same_players.
    unfold exec, resume_game, bind, get.
    destruct (GameState_eqb _ _); reflexivity.
  - now apply scores_not_below_same_players.
  - apply scores_process_actions, scores_not_below_refl.
  - now apply scores_not_below_same_players.
Qed.

(** *** The default actor *)


(** *** Registration *)

Lemma keys_dict_set_mem (k : string) (v : Player) (d : dict) :
  dict_mem k d = true -> keys (dict_set k v d) = keys d.
Proof.
  unfold dict_mem. induction d as [| [k0 v0] rest IH]; simpl.
  - discriminate.
  - destruct (String.eqb k0 k); simpl; [reflexivity|].
    intros H. now rewrite IH.
Qed.

(** C10: the registration of an id that is already registered returns, and
    stores in the place of the old player, a new player with a health of
    100, a score of 0, a neutral posture and no last move; the health and the
    score of the old player are gone.  The order of the players, the other
    players, the phase, the round and the times are unchanged. *)
Theorem registering_again_replaces (pid nm : string) (g : BoxingGame)
  (old : Player) :
  dict_get pid (players g) = Some old ->
  exists g',
    add_player pid nm g
    = (Ret (mkPlayer pid nm 100 0 None None false false), g') /\
    dict_get pid (players g')
    = Some (mkPlayer pid nm 100 0 None None false false) /\
    keys (players g') = keys (players g) /\
    (forall k, k <> pid -> dict_get k (players g') = dict_get k (players g)) /\
    same_frame g g'.
Proof.
  intros Hold. eexists. split; [reflexivity|].
  cbn [players set_players]. split; [|split; [|split]].
  - rewrite dict_get_set, String.eqb_refl. reflexivity.
  - apply keys_dict_set_mem. unfold dict_mem. now rewrite Hold.
  - intros k Hk. rewrite dict_get_set.
    destruct (String.eqb pid k) eqn:E; [|reflexivity].
    apply String.eqb_eq in E. congruence.
  - repeat split.
Qed.

(** *** The two classifiers *)

(** A float above a positive constant is above every smaller constant of
    the same exponent. *)
Lemma ltb_constant_weaken (mc mc' : positive) (ec : Z) (x : float) :
  (mc' <= mc)%positive ->
  F64.ltb (S754_finite false mc ec) x = true ->
  F64.ltb (S754_finite false mc' ec) x = true.
Proof.
  intros Hle. unfold F64.ltb, SFltb, SFcompare.
  destruct x as [s | s | | s m e]; try (intros H; exact H).
  destruct s; [intros H; exact H|].
  destruct (Z.compare ec e); try (intros H; exact H).
  pose proof (Pos.compare_cont_spec mc m Eq) as H1.
  pose proof (Pos.compare_cont_spec mc' m Eq) as H2.
  rewrite H1, H2. cbn [Pos.switch_Eq].
  destruct (Pos.compare_spec mc m) as [Heq | Hlt | Hgt]; try discriminate.
  intros _.
  assert (Hlt' : (mc' < m)%positive) by lia.
  apply Pos.compare_lt_iff in Hlt'. now rewrite Hlt'.
Qed.

Lemma above_0_8_above_0_7 (x : float) :
  F64.gtb x F64.f0_8 = true -> F64.gtb x F64.f0_7 = true.
Proof.
  unfold F64.gtb, F64.f0_8, F64.f0_7. apply ltb_constant_weaken.
  unfold Pos.le. vm_compute. discriminate.
Qed.

Lemma above_0_8_above_0_5 (x : float) :
  F64.gtb x F64.f0_8 = true -> F64.gtb x F64.f0_5 = true.
Proof.
  unfold F64.gtb, F64.f0_8, F64.f0_5. apply ltb_constant_weaken.
  unfold Pos.le. vm_compute. discriminate.
Qed.

(** The confidence of a straight punch is [0.0] or above [0.8]. *)
Lemma straight_punch_value (ext : float) (forward : bool) :
  let r := if F64.gtb ext F64.f0_8 && forward
           then F64.min ext F64.one else F64.zero in
  r = F64.zero \/ F64.gtb r F64.f0_8 = true.
Proof.
  cbn zeta. destruct (F64.gtb ext F64.f0_8 && forward) eqn:E; [|now left].
  right. apply andb_true_iff in E. destruct E as [E _].
  unfold F64.min. destruct (F64.ltb F64.one ext); [reflexivity | exact E].
Qed.

Lemma straight_punch_thresholds (r : float) :
  r = F64.zero \/ F64.gtb r F64.f0_8 = true ->
  F64.gtb r F64.f0_7 = F64.gtb r F64.f0_5.
Proof.
  intros [-> | H]; [reflexivity|].
  now rewrite above_0_8_above_0_7, above_0_8_above_0_5.
Qed.

Lemma same_decision_moves (p : Pose.pose_data) :
  Forall2 (same_decision p) BackendPose.boxing_moves
          StandalonePose.boxing_moves.
Proof.
  unfold BackendPose.boxing_moves, StandalonePose.boxing_moves.
  repeat (constructor;
          [split; [reflexivity | split; [reflexivity|]] |]).
  - exists F64.f0_7. split; [reflexivity|]. cbn [snd].
    apply straight_punch_thresholds.
    apply (straight_punch_value _ _).
  - exists F64.f0_7. split; [reflexivity|]. cbn [snd].
    apply straight_punch_thresholds.
    apply (straight_punch_value _ _).
  - exists F64.f0_6. split; [reflexivity|]. cbn [snd].
    unfold BackendPose._detect_hook, StandalonePose._detect_hook. cbn zeta.
    destruct (_ || _); reflexivity.
  - exists F64.f0_6. split; [reflexivity|]. cbn [snd].
    unfold BackendPose._detect_uppercut, StandalonePose._detect_uppercut.
    cbn zeta. destruct (_ || _); reflexivity.
  - exists F64.f0_5. split; reflexivity.
  - exists F64.f0_5. split; reflexivity.
  - exists F64.f0_5. split; reflexivity.
  - constructor.
Qed.

Lemma detect_loops_agree (p : Pose.pose_data) (clock clock' : nat -> float)
  (backend standalone : list (string * (Pose.pose_data -> float))) :
  Forall2 (same_decision p) backend standalone ->
  forall acc acc',
    map untimed acc = map untimed acc' ->
    option_map (map untimed)
               (StandalonePose.detect_loop standalone p clock' acc')
    = Some (map untimed (BackendPose.detect_loop backend p clock acc)).
Proof.
  induction 1 as [| [nb db] [ns ds] backend standalone Hd _ IH];
    intros acc acc' Hacc; simpl.
  - now rewrite Hacc.
  - destruct Hd as (Hname & Hval & limit & Hlimit & Hgt). simpl in *.
    subst ns. rewrite Hlimit, Hgt, <- Hval.
    apply IH. destruct (F64.gtb (db p) F64.f0_5); [|exact Hacc].
    rewrite !map_app, Hacc. reflexivity.
Qed.

(** C8: on every pose array the loop of the backend classifier, with its
    threshold of 0.5, and the loop of the standalone classifier, with its
    table of thresholds, record the same moves with the same confidences in
    the same order; the standalone classifier finds a threshold for every
    move.  The times of the detections are left out of the comparison. *)
Theorem classifiers_detect_the_same_moves (p : Pose.pose_data)
  (clock clock' : nat -> float) :
  option_map (map untimed)
    (StandalonePose.detect_loop StandalonePose.boxing_moves p clock' [])
  = Some (map untimed
            (BackendPose.detect_loop BackendPose.boxing_moves p clock [])).
Proof.
  apply detect_loops_agree; [apply same_decision_moves | reflexivity].
Qed.


(** ** Registration and removal *)

Lemma dict_mem_false_keys (k : string) (d : dict) :
  dict_mem k d = false <-> ~ In k (keys d).
Proof.
  unfold dict_mem. induction d as [| [k0 v0] rest IH]; simpl.
  - split; [tauto | reflexivity].
  - destruct (String.eqb k0 k) eqn:E.
    + apply String.eqb_eq in E. subst k0. split; [discriminate | tauto].
    + apply String.eqb_neq in E. rewrite IH. tauto.
Qed.

Lemma dict_set_fresh (k : string) (v : Player) (d : dict) :
  dict_mem k d = false -> dict_set k v d = (d ++ [(k, v)])%list.
Proof.
  unfold dict_mem. induction d as [| [k0 v0] rest IH]; simpl.
  - reflexivity.
  - destruct (String.eqb k0 k); [discriminate|].
    intros H. now rewrite IH.
Qed.

Lemma dict_del_fresh (k : string) (d : dict) :
  dict_mem k d = false -> dict_del k d = d.
Proof.
  unfold dict_mem, dict_del. induction d as [| [k0 v0] rest IH]; simpl.
  - reflexivity.
  - destruct (String.eqb k0 k); [discriminate|].
    intros H. simpl. now rewrite IH.
Qed.

Lemma keys_dict_del (k : string) (d : dict) :
  keys (dict_del k d) = filter (fun k' => negb (String.eqb k' k)) (keys d).
Proof.
  unfold dict_del, keys. induction d as [| [k0 v0] rest IH]; simpl.
  - reflexivity.
  - destruct (String.eqb k0 k); simpl; now rewrite IH.
Qed.

Lemma set_players_same (g : BoxingGame) : set_players (players g) g = g.
Proof. now destruct g. Qed.

(** The registration of an id that is not registered appends a new player
    at the end of the dictionary and leaves the others alone; the removal of
    that id afterwards gives back the state of before. *)
Theorem add_player_fresh_then_remove (pid nm : string) (g : BoxingGame) :
  dict_mem pid (players g) = false ->
  exists g',
    add_player pid nm g
    = (Ret (mkPlayer pid nm 100 0 None None false false), g') /\
    players g'
    = (players g ++ [(pid, mkPlayer pid nm 100 0 None None false false)])%list
    /\
    same_frame g g' /\
    remove_player pid g' = (Ret true, g).
Proof.
  intros Hfresh. eexists. split; [reflexivity|].
  cbn [players set_players]. unfold new_Player.
  rewrite (dict_set_fresh _ _ _ Hfresh).
  split; [reflexivity|]. split; [repeat split|].
  unfold remove_player, bind, get. cbn [players set_players].
  assert (Hmem : dict_mem pid
            (players g ++ [(pid, mkPlayer pid nm 100 0 None None false false)])%list
          = true).
  { unfold dict_mem. clear Hfresh.
    induction (players g) as [| [k0 v0] rest IH]; simpl.
    - now rewrite String.eqb_refl.
    - destruct (String.eqb k0 pid); [reflexivity | exact IH]. }
  rewrite Hmem. unfold modify_players, modify, ret.
  cbn [players set_players]. f_equal.
  unfold dict_del. rewrite filter_app. simpl.
  rewrite String.eqb_refl. simpl. rewrite app_nil_r.
  fold (dict_del pid (players g)). rewrite (dict_del_fresh _ _ Hfresh).
  now destruct g.
Qed.

(** The removal of an id that is not registered returns [False] and changes
    nothing.  The removal of a registered id returns [True]; afterwards the
    id is not registered, the other players are where they were, in the
    same order, and no other field of the state has changed. *)
Theorem remove_player_result (pid : string) (g : BoxingGame) :
  (dict_mem pid (players g) = false -> remove_player pid g = (Ret false, g)) /\
  (dict_mem pid (players g) = true ->
   exists g',
     remove_player pid g = (Ret true, g') /\
     dict_mem pid (players g') = false /\
     (forall k, k <> pid ->
                dict_get k (players g') = dict_get k (players g)) /\
     keys (players g')
     = filter (fun k => negb (String.eqb k pid)) (keys (players g)) /\
     same_frame g g').
Proof.
  split; intros Hmem; unfold remove_player, bind, get; rewrite Hmem.
  - reflexivity.
  - eexists. split; [reflexivity|]. cbn [players set_players].
    split; [|split; [|split]].
    + unfold dict_mem. rewrite dict_get_del, String.eqb_refl. reflexivity.
    + intros k Hk. rewrite dict_get_del.
      destruct (String.eqb pid k) eqn:E; [|reflexivity].
      apply String.eqb_eq in E. congruence.
    + apply keys_dict_del.
    + repeat split.
Qed.

(** ** The phases *)

(** [start_game] with at least one player returns the new state: the match
    is playing in round 1 with the start time read at the call; every player
    keeps its place, id and name and has a health of 100, a score of 0, no
    last move and a neutral posture.  The time of the last move is not
    cleared. *)
Theorem start_game_resets_players (now : float) (g : BoxingGame) :
  players g <> [] ->
  exists g',
    start_game now g = (Ret g', g') /\
    state g' = PLAYING /\ current_round g' = 1 /\
    game_start_time g' = Some now /\
    last_update_time g' = last_update_time g /\
    List.length (players g') = List.length (players g) /\
    forall j k p,
      nth_error (players g) j = Some (k, p) ->
      nth_error (players g') j
      = Some (k, mkPlayer (id p) (name p) 100 0 None (last_move_time p)
                          false false).
Proof.
  intros Hne. unfold start_game, bind, get, get_state, get.
  destruct (players g) as [| kv rest] eqn:Hp; [congruence|].
  assert (Hlt : (Z.of_nat (List.length (kv :: rest)) <? 1) = false)
    by (apply Z.ltb_ge; simpl; lia).
  rewrite Hlt. unfold modify_players, modify.
  eexists. split; [reflexivity|].
  cbn [state current_round game_start_time last_update_time players
       set_state set_players set_current_round set_game_start_time].
  rewrite Hp. repeat (split; [reflexivity|]).
  split; [unfold modify_all; now rewrite length_map|].
  intros j k p Hj. rewrite nth_error_modify_all, Hj. reflexivity.
Qed.

(** Outside of the playing phase [process_actions] returns the state and
    changes nothing, whatever the batch holds: not even the time of the last
    update is set, and a move that is not in the enumeration raises
    nothing. *)
Theorem process_actions_outside_play (g : BoxingGame) (t0 t1 t2 : float)
  (actions : list action_data) :
  state g <> PLAYING -> process_actions t0 t1 t2 actions g = (Ret g, g).
Proof.
  intros Hs. unfold process_actions, bind, get, get_state.
  destruct (state g); try reflexivity. congruence.
Qed.

(** [pause_game] has no guard and [resume_game] looks at the phase only: a
    pause followed by a resume leaves a playing match, from any phase, a
    finished or a waiting match included, with every other field as it was;
    a resume of a match that is not paused does nothing. *)
Theorem pause_then_resume_plays (g : BoxingGame) :
  resume_game (exec pause_game g) = (Ret (set_state PLAYING g),
                                     set_state PLAYING g) /\
  (state g <> PAUSED -> resume_game g = (Ret g, g)).
Proof.
  split.
  - reflexivity.
  - intros Hs. unfold resume_game, bind, get, get_state.
    destruct (state g); try reflexivity. congruence.
Qed.

(** The strings of the enumeration: [MoveType] of the value of a member is
    that member, and two members with the same value are the same. *)
Theorem MoveType_value_round_trip (m m' : MoveType) :
  MoveType_of_value (MoveType_value m) = Some m /\
  (MoveType_value m = MoveType_value m' -> m = m').
Proof.
  split; [now destruct m|].
  intros H. apply MoveType_of_value_spec in H.
  assert (H' : MoveType_of_value (MoveType_value m) = Some m)
    by now destruct m.
  congruence.
Qed.

(** ** Invariants of all the operations *)

Lemma run_all_invariant (P : BoxingGame -> Prop) :
  P init -> (forall o g, P g -> P (run o g)) ->
  forall ops, P (run_all ops init).
Proof.
  intros Hinit Hstep ops. unfold run_all.
  revert Hinit. generalize init.
  induction ops as [| o ops IH]; intros g H; simpl; auto.
Qed.

Section PlayerInvariant.

(** A property of a player that a new player has and that every update of
    the engine keeps. *)
Variable Pp : Player -> Prop.

Hypothesis Pp_new : forall pid nm, Pp (new_Player pid nm).
Hypothesis Pp_reset : forall p, Pp p -> Pp (reset_player p).
Hypothesis Pp_last_move :
  forall p m t, Pp p -> Pp (set_last_move_time t (set_last_move m p)).
(** The three defensive moves set the two flags, never both to [True]. *)
Hypothesis Pp_block :
  forall p b b', (b && b' = false) -> Pp p ->
                 Pp (set_is_dodging b' (set_is_blocking b p)).
Hypothesis Pp_damage : forall p d, 0 <= d -> Pp p -> Pp (_apply_damage d p).
Hypothesis Pp_score :
  forall p d, 0 < d -> Pp p -> Pp (set_score (score p + d) p).
Hypothesis Pp_next_round :
  forall p, Pp p -> Pp (set_is_dodging false
                          (set_is_blocking false (set_health 100 p))).

Let all_players (g : BoxingGame) : Prop := Forall Pp (values (players g)).

Lemma all_players_field (f : BoxingGame -> BoxingGame) (g : BoxingGame) :
  players (f g) = players g -> all_players g -> all_players (f g).
Proof. unfold all_players. intros ->. auto. Qed.

Lemma all_players_process_single_action (action : GameAction) :
  preserves all_players (_process_single_action action).
Proof.
  unfold _process_single_action.
  apply preserves_bind_get. intros g _.
  destruct (negb _); [auto with pres|].
  destruct (MoveType_of_value _) as [mt|]; [|auto with pres].
  assert (Hmod : forall k f, (forall p, Pp p -> Pp (f p)) ->
            preserves all_players (modify_players (dict_modify k f))).
  { intros k f Hf g0 H0. unfold all_players, exec, modify_players, modify.
    cbn [snd players set_players].
    eapply Forall_values_updated; [|exact H0].
    apply pointwise_dict_modify; unfold updated_by; auto. }
  apply preserves_bind; [apply Hmod; auto|]. intros _.
  destruct (is_defensive mt).
  { destruct mt; apply Hmod; intros p; apply Pp_block; reflexivity. }
  destruct (is_offensive mt); [|auto with pres].
  apply preserves_bind_get. intros g1 _.
  destruct (_get_opponent _ g1) as [[oid opp]|]; [|auto with pres].
  apply preserves_bind_lift. intros d Hd.
  apply calculate_damage_nonneg in Hd.
  apply preserves_bind; [apply Hmod; auto|]. intros _.
  destruct (0 <? d) eqn:E; [|auto with pres].
  apply Z.ltb_lt in E. apply Hmod; auto.
Qed.

Lemma all_players_process_actions (t0 t1 t2 : float)
  (actions : list action_data) :
  preserves all_players (process_actions t0 t1 t2 actions).
Proof.
  assert (Hupd : forall g d', pointwise (updated_by Pp) (players g) d' ->
            all_players g -> all_players (set_players d' g)).
  { intros g d' Hpw H. unfold all_players. cbn [players set_players].
    eapply Forall_values_updated; eauto. }
  assert (Hfirst : forall c f, (forall p, Pp p -> Pp (f p)) ->
            preserves all_players (modify_players (modify_first c f))).
  { intros c f Hf g H. apply Hupd; [|exact H].
    apply pointwise_modify_first; unfold updated_by; auto. }
  assert (Hnth : forall i f, (forall p, Pp p -> Pp (f p)) ->
            preserves all_players (modify_players (modify_nth i f))).
  { intros i f Hf g H. apply Hupd; [|exact H].
    apply pointwise_modify_nth; unfold updated_by; auto. }
  assert (Hall : forall f, (forall p, Pp p -> Pp (f p)) ->
            preserves all_players (modify_players (modify_all f))).
  { intros f Hf g H. apply Hupd; [|exact H].
    apply pointwise_modify_all; unfold updated_by; auto. }
  assert (Hfield : forall f, (forall g, players (f g) = players g) ->
            preserves all_players (modify f)).
  { intros f Hf g H. apply all_players_field; auto. }
  unfold process_actions, get_state.
  apply preserves_bind_get. intros g _.
  destruct (negb _); [auto with pres|].
  apply preserves_bind; [now apply Hfield|]. intros _.
  apply preserves_bind.
  { induction actions as [| a rest IH]; simpl; [auto with pres|].
    apply preserves_bind; [|intros _; exact IH].
    unfold process_action_data.
    destruct (key_move a); [|auto with pres].
    destruct (key_confidence a); [|auto with pres].
    apply all_players_process_single_action. }
  intros _. apply preserves_bind; [|auto with pres].
  unfold _check_game_conditions.
  apply preserves_bind_get. intros g0 _.
  destruct (find _ _).
  { unfold _handle_knockout.
    apply preserves_bind; [apply Hfirst; intros; apply Pp_score; auto; lia|].
    intros _. now apply Hfield. }
  destruct (game_start_time g0) as [start|]; [|auto with pres].
  destruct (F64.truthy start); [|auto with pres].
  destruct (F64.geb _ _); [|auto with pres].
  unfold _handle_round_end.
  apply preserves_bind_get. intros g1 _.
  apply preserves_bind.
  { destruct (2 <=? _); [|auto with pres].
    destruct (sort_reverse _) as [| [w ?] ?]; [auto with pres|].
    apply Hnth. intros; apply Pp_score; auto; lia. }
  intros _. apply preserves_bind; [now apply Hfield|].
  intros _. apply preserves_bind_get. intros g2 _.
  destruct (max_rounds g2 <? current_round g2); [now apply Hfield|].
  apply preserves_bind; [now apply Hfield|]. intros _.
  apply Hall. auto.
Qed.

Lemma all_players_run (o : operation) (g : BoxingGame) :
  all_players g -> all_players (run o g).
Proof.
  intros H. destruct o; simpl.
  - unfold all_players, exec, add_player, bind, modify_players, modify.
    cbn [snd players set_players].
    apply Forall_values_dict_set; auto.
  - unfold exec, remove_player, bind, get.
    destruct (dict_mem pid (players g)); [|exact H].
    unfold all_players. cbn [snd players set_players].
    now apply Forall_values_dict_del.
  - unfold exec, start_game, bind, get.
    destruct (_ <? 1); [exact H|].
    unfold all_players. cbn. unfold all_players in H.
    induction (players g) as [| [k v] rest IH]; simpl; [constructor|].
    inversion H; subst. constructor; auto.
  - exact H.
  - unfold exec, resume_game, bind, get.
    destruct (GameState_eqb _ _); exact H.
  - exact H.
  - now apply all_players_process_actions.
  - exact H.
  - constructor.
Qed.

Lemma all_players_reachable (ops : list operation) :
  Forall Pp (values (players (run_all ops init))).
Proof.
  apply (run_all_invariant all_players); [constructor|].
  intros o g. apply all_players_run.
Qed.

End PlayerInvariant.

(** In every state that a sequence of operations reaches from the initial
    state, no player is blocking and dodging at once, and no player has a
    negative score. *)
Theorem posture_exclusive_and_score_nonnegative (ops : list operation) :
  Forall (fun p => is_blocking p && is_dodging p = false /\ 0 <= score p)
         (values (players (run_all ops init))).
Proof.
  apply all_players_reachable.
  - intros. simpl. split; [reflexivity | lia].
  - intros p _. simpl. split; [reflexivity | lia].
  - intros p m t H. exact H.
  - intros p b b' Hb [_ Hs]. simpl. split; [exact Hb | exact Hs].
  - intros p d _ H. exact H.
  - intros p d Hd [Hp Hs]. simpl. split; [exact Hp | lia].
  - intros p [_ Hs]. simpl. split; [reflexivity | exact Hs].
Qed.

(** ** The dictionary stays well keyed *)

Lemma well_keyed_pointwise (g : BoxingGame) (d' : dict) :
  pointwise same_person (players g) d' ->
  well_keyed g -> well_keyed (set_players d' g).
Proof.
  intros Hpw [Hnd Hid]. split; cbn [players set_players].
  - now rewrite <- (pointwise_keys _ _ _ Hpw).
  - clear Hnd. induction Hpw as [| a b l l' [Hk [Hi _]] _ IH].
    + constructor.
    + inversion Hid; subst. constructor; [congruence | auto].
Qed.

Lemma same_person_refl (p : Player) : same_person p p.
Proof. split; reflexivity. Qed.

Lemma well_keyed_process_actions (t0 t1 t2 : float)
  (actions : list action_data) :
  preserves well_keyed (process_actions t0 t1 t2 actions).
Proof.
  apply (inv_process_actions _ same_person).
  - intros f g Hf [H1 H2]. split; rewrite Hf; assumption.
  - apply well_keyed_pointwise.
  - apply same_person_refl.
  - intros; split; reflexivity.
  - intros; split; reflexivity.
  - intros; split; reflexivity.
  - intros; split; reflexivity.
  - intros; split; reflexivity.
  - intros; split; reflexivity.
Qed.

Lemma in_keys_dict_set (k k' : string) (v : Player) (d : dict) :
  In k' (keys (dict_set k v d)) <-> k' = k \/ In k' (keys d).
Proof.
  induction d as [| [k0 v0] rest IH]; simpl.
  - intuition congruence.
  - destruct (String.eqb k0 k) eqn:E; simpl.
    + apply String.eqb_eq in E. subst k0. intuition congruence.
    + rewrite IH. intuition congruence.
Qed.

Lemma well_keyed_dict_set (k nm : string) (g : BoxingGame) :
  well_keyed g ->
  well_keyed (set_players (dict_set k (new_Player k nm) (players g)) g).
Proof.
  intros [Hnd Hid]. cbn [players set_players]. split.
  - clear Hid. induction (players g) as [| [k0 v0] rest IH]; simpl.
    + constructor; [tauto | constructor].
    + simpl in Hnd. inversion Hnd as [| ? ? Hnin Hrest]; subst.
      destruct (String.eqb k0 k) eqn:E; simpl.
      * constructor; assumption.
      * constructor; [|auto].
        rewrite in_keys_dict_set. apply String.eqb_neq in E.
        intuition congruence.
  - clear Hnd. induction (players g) as [| [k0 v0] rest IH]; simpl.
    + constructor; [reflexivity | constructor].
    + inversion Hid; subst.
      destruct (String.eqb k0 k) eqn:E; simpl.
      * apply String.eqb_eq in E. subst k0. constructor; auto.
      * constructor; auto.
Qed.

Lemma well_keyed_run (o : operation) (g : BoxingGame) :
  well_keyed g -> well_keyed (run o g).
Proof.
  intros H. destruct o; simpl.
  - now apply well_keyed_dict_set.
  - unfold exec, remove_player, bind, get.
    destruct (dict_mem pid (players g)); [|exact H].
    change (well_keyed (set_players (dict_del pid (players g)) g)).
    destruct H as [Hnd Hid]. split; cbn [players set_players].
    + rewrite keys_dict_del. now apply NoDup_filter.
    + unfold dict_del. clear Hnd.
      induction (players g) as [| [k0 v0] rest IH]; simpl; [constructor|].
      inversion Hid; subst.
      destruct (negb (String.eqb k0 pid)); [constructor|]; auto.
  - unfold exec, start_game, bind, get.
    destruct (_ <? 1); [exact H|].
    change (well_keyed
              (set_players (modify_all reset_player (players g))
                 (set_current_round 1
                    (set_game_start_time (Some now)
                       (set_state PLAYING g))))).
    apply well_keyed_pointwise; [|exact H].
    apply pointwise_modify_all. intros; split; reflexivity.
  - exact H.
  - unfold exec, resume_game, bind, get.
    destruct (GameState_eqb _ _); exact H.
  - exact H.
  - now apply well_keyed_process_actions.
  - exact H.
  - split; constructor.
Qed.

(** In every state that a sequence of operations reaches from the initial
    state, the ids under which the players are registered are distinct, and
    every player is stored under its own id. *)
Theorem players_stay_well_keyed (ops : list operation) :
  NoDup (keys (players (run_all ops init))) /\
  Forall (fun kv => id (snd kv) = fst kv) (players (run_all ops init)).
Proof.
  apply (run_all_invariant well_keyed).
  - split; constructor.
  - intros o g. apply well_keyed_run.
Qed.

(** ** What a call of [process_actions] does to the players *)

Lemma same_person_trans (a b c : Player) :
  same_person a b -> same_person b c -> same_person a c.
Proof. unfold same_person. intros [] []. split; congruence. Qed.

(** [process_actions] never registers and never removes a player: whether it
    returns or raises, the players are the same ones, under the same keys
    in the same order, with their ids and names. *)
Theorem process_actions_keeps_the_players (g : BoxingGame) (t0 t1 t2 : float)
  (actions : list action_data) :
  pointwise same_person (players g)
            (players (exec (process_actions t0 t1 t2 actions) g)).
Proof.
  apply (inv_process_actions
           (fun g' => pointwise same_person (players g) (players g'))
           same_person).
  - intros f g' Hf H. now rewrite Hf.
  - intros g' d' Hpw H. cbn [players set_players].
    eapply pointwise_trans; eauto using same_person_trans.
  - apply same_person_refl.
  - intros; split; reflexivity.
  - intros; split; reflexivity.
  - intros; split; reflexivity.
  - intros; split; reflexivity.
  - intros; split; reflexivity.
  - intros; split; reflexivity.
  - apply pointwise_refl, same_person_refl.
Qed.

Lemma worn_down_trans (a b c : Player) :
  worn_down a b -> worn_down b c -> worn_down a c.
Proof.
  unfold worn_down. intros (? & ? & ?) (? & ? & ?).
  repeat split; try lia; eapply same_person_trans; eauto.
Qed.

Lemma worn_down_refl (p : Player) : worn_down p p.
Proof. unfold worn_down. repeat split; lia. Qed.

Lemma wears_trans (a b c : Player) : wears a b -> wears b c -> wears a c.
Proof.
  unfold wears. intros Hab Hbc Ha.
  destruct (Hab Ha) as [H1 Hb]. destruct (Hbc Hb) as [H2 Hc].
  split; [eapply worn_down_trans; eauto | exact Hc].
Qed.

Lemma wears_refl (p : Player) : wears p p.
Proof. intros H. split; [apply worn_down_refl | exact H]. Qed.

(** The elements of a batch, before the checks at the end of the tick,
    only wear the players down: when no health is negative before, position
    by position the players are the same, no health has gone up and no score
    has gone down, and no health is negative afterwards, whether the batch
    runs to its end or raises on the way. *)
Theorem batch_wears_players_down (g : BoxingGame) (t : float)
  (actions : list action_data) :
  Forall (fun p => 0 <= health p) (values (players g)) ->
  pointwise worn_down (players g)
            (players (exec (process_batch t actions) g)) /\
  Forall (fun p => 0 <= health p)
         (values (players (exec (process_batch t actions) g))).
Proof.
  intros Hpos.
  assert (H : pointwise wears (players g)
                (players (exec (process_batch t actions) g))).
  { apply (inv_process_batch
             (fun g' => pointwise wears (players g) (players g')) wears).
    - intros g' d' Hpw H. cbn [players set_players].
      eapply pointwise_trans; eauto using wears_trans.
    - apply wears_refl.
    - intros p m t' Hp. unfold worn_down, same_person. simpl.
      repeat split; lia.
    - intros p b b' Hp. unfold worn_down, same_person. simpl.
      repeat split; lia.
    - intros p b b' Hp. unfold worn_down, same_person. simpl.
      repeat split; lia.
    - intros p d Hd Hp. unfold worn_down, same_person, _apply_damage. simpl.
      repeat split; lia.
    - intros p d Hd Hp. unfold worn_down, same_person. simpl.
      repeat split; lia.
    - apply pointwise_refl, wears_refl. }
  revert Hpos. unfold values.
  induction H as [| a b l l' [Hk Hw] _ IH]; intros Hpos.
  - split; constructor.
  - simpl in Hpos. inversion Hpos as [| ? ? Ha Hl]; subst.
    destruct (Hw Ha) as [Hwd Hb]. destruct (IH Hl) as [IH1 IH2].
    split; constructor; auto.
Qed.

(** ** More on punches *)

(** The damage of a punch with a confidence of the data model lies between
    0 and the base damage of the move, which is at most 25; against any
    opponent it is at most the damage against an opponent who neither blocks
    nor dodges. *)
Theorem damage_bounds (mt : MoveType) (conf : float)
  (neutral opponent : Player) :
  is_offensive mt = true ->
  F64.is_confidence conf = true ->
  is_blocking neutral = false ->
  is_dodging neutral = false ->
  exists d_neutral d,
    _calculate_damage mt conf neutral = Ret d_neutral /\
    _calculate_damage mt conf opponent = Ret d /\
    0 <= d <= d_neutral /\ d_neutral <= move_damage mt <= 25.
Proof.
  intros Hoff Hconf Hnb Hnd.
  destruct (of_int_move_damage mt Hoff) as (mb & eb & Hof & Heb & Hmb).
  assert (Hbase : 0 <= move_damage mt <= 25) by (destruct mt; simpl; lia).
  destruct (F64Facts.mul_finite_confidence (move_damage mt) mb eb conf
              Heb Hmb ltac:(lia) Hconf) as (d0 & Hd0 & Hr0).
  unfold _calculate_damage. rewrite Hof, Hnb, Hnd.
  apply int_of_float_Ret in Hd0. rewrite Hd0.
  exists (Z.max 0 d0).
  destruct (is_blocking opponent).
  - destruct (blocked_damage_total mt d0 ltac:(lia)) as (d1 & Hd1 & Hle).
    apply int_of_float_Ret in Hd1. rewrite Hd1.
    eexists. split; [reflexivity|]. split; [reflexivity|].
    destruct (is_dodging opponent); lia.
  - eexists. split; [reflexivity|]. split; [reflexivity|].
    destruct (is_dodging opponent); lia.
Qed.


(** With one registered player there is no opponent: a punch of that player
    is recorded as its last move and nothing else happens, whatever the
    confidence is; no damage is computed, no health and no score changes. *)
Theorem single_player_punch (g : BoxingGame) (action : GameAction)
  (mt : MoveType) :
  List.length (players g) = 1%nat ->
  dict_mem (player_id action) (players g) = true ->
  MoveType_of_value (move_type action) = Some mt ->
  is_offensive mt = true ->
  (forall pid, _get_opponent pid g = None) /\
  _process_single_action action g =
  (Ret tt,
   set_players
     (dict_modify (player_id action)
        (fun p => set_last_move_time (Some (timestamp action))
                    (set_last_move (Some (move_type action)) p))
        (players g)) g).
Proof.
  intros Hlen Hmem Hmt Hoff.
  assert (Hnone : forall pid g0, List.length (players g0) = 1%nat ->
                                 _get_opponent pid g0 = None).
  { intros pid g0 H. unfold _get_opponent. now rewrite H. }
  split; [intros pid; now apply Hnone|].
  unfold _process_single_action, bind, get. rewrite Hmem, Hmt.
  cbn [negb]. unfold modify_players at 1. unfold modify at 1.
  assert (Hdef : is_defensive mt = false) by (destruct mt; auto; discriminate).
  rewrite Hdef, Hoff, Hnone; [reflexivity|].
  cbn [players set_players]. now rewrite length_dict_modify.
Qed.

(** With two registered players under distinct ids each one is the opponent
    of the other, unless the id of the other is the empty string, which the
    lookup of the opponent takes for a missing id. *)
Theorem opponent_of_two_players (g : BoxingGame) (a b : string)
  (pa pb : Player) :
  players g = [(a, pa); (b, pb)] -> a <> b ->
  _get_opponent a g = (if String.eqb b "" then None else Some (b, pb)) /\
  _get_opponent b g = (if String.eqb a "" then None else Some (a, pa)).
Proof.
  intros Hp Hab. unfold _get_opponent. rewrite Hp. simpl.
  assert (Eab : String.eqb a b = false) by now apply String.eqb_neq.
  assert (Eba : String.eqb b a = false)
    by (apply String.eqb_neq; congruence).
  rewrite !String.eqb_refl, Eab, Eba. simpl.
  rewrite !String.eqb_refl, Eab. split.
  - destruct (String.eqb b ""); reflexivity.
  - destruct (String.eqb a ""); reflexivity.
Qed.

(** ** The end of a tick without an event *)

(** In a playing match, when the batch has run, nobody is knocked out and
    the time limit is not reached, the call returns the state that the batch
    left.  The time limit is not reached when the start time is missing,
    when it is zero, which the engine takes for a missing time, or when the
    time elapsed is below the round time. *)
Theorem quiet_tick (g g1 : BoxingGame) (t0 t1 t2 : float)
  (actions : list action_data) :
  state g = PLAYING ->
  process_batch t0 actions (set_last_update_time (Some t0) g) = (Ret tt, g1) ->
  find (fun p => health p <=? 0) (values (players g1)) = None ->
  match game_start_time g1 with
  | None => True
  | Some start =>
      F64.truthy start = false \/
      F64.geb (F64.sub t1 start) (F64.of_int (round_time g1)) = false
  end ->
  process_actions t0 t1 t2 actions g = (Ret g1, g1).
Proof.
  intros Hs Hb Hko Ht.
  rewrite (process_actions_playing g g1 t0 t1 t2 actions Hs Hb).
  unfold _check_game_conditions, bind, get. rewrite Hko.
  destruct (game_start_time g1) as [start|]; [|reflexivity].
  destruct (F64.truthy start); [|reflexivity].
  destruct Ht as [Ht | Ht]; [discriminate|]. now rewrite Ht.
Qed.

(** ** The rounds *)

Lemma sane_rounds_process_actions (t0 t1 t2 : float)
  (actions : list action_data) :
  preserves sane_rounds (process_actions t0 t1 t2 actions).
Proof.
  assert (Hplayers : forall f, preserves sane_rounds (modify_players f)).
  { intros f g H. exact H. }
  assert (Hfield : forall f,
            (forall g, sane_rounds g -> sane_rounds (f g)) ->
            preserves sane_rounds (modify f)).
  { intros f Hf g H. apply Hf, H. }
  unfold process_actions, get_state.
  apply preserves_bind_get. intros g _.
  destruct (negb _); [auto with pres|].
  apply preserves_bind; [apply Hfield; auto|]. intros _.
  apply preserves_bind.
  { intros g0 H0.
    pose proof (frame_process_batch g0 t0 actions g0 (same_frame_refl g0))
      as (_ & Hrt & Hcr & Hmr & _).
    unfold sane_rounds in *. rewrite Hrt, Hcr, Hmr. exact H0. }
  intros _. apply preserves_bind; [|auto with pres].
  unfold _check_game_conditions.
  apply preserves_bind_get. intros g0 _.
  destruct (find _ _).
  { unfold _handle_knockout.
    apply preserves_bind; [apply Hplayers|]. intros _.
    apply Hfield; auto. }
  destruct (game_start_time g0) as [start|]; [|auto with pres].
  destruct (F64.truthy start); [|auto with pres].
  destruct (F64.geb _ _); [|auto with pres].
  unfold _handle_round_end.
  apply preserves_bind_get. intros g1 _.
  apply preserves_bind.
  { destruct (2 <=? _); [|auto with pres].
    destruct (sort_reverse _) as [| [w ?] ?]; [auto with pres|].
    apply Hplayers. }
  intros _. apply preserves_bind.
  { apply Hfield. unfold sane_rounds. simpl. intros; lia. }
  intros _. apply preserves_bind_get. intros g2 _.
  destruct (max_rounds g2 <? current_round g2); [apply Hfield; auto|].
  apply preserves_bind; [apply Hfield; auto|]. intros _.
  apply Hplayers.
Qed.

Lemma sane_rounds_reachable (ops : list operation) :
  sane_rounds (run_all ops init).
Proof.
  apply (run_all_invariant sane_rounds).
  - unfold sane_rounds. simpl. lia.
  - intros o g H. destruct o; simpl; try exact H.
    + unfold exec, remove_player, bind, get.
      destruct (dict_mem _ _); exact H.
    + unfold exec, start_game, bind, get.
      destruct (_ <? 1); [exact H|].
      unfold sane_rounds in *. simpl. lia.
    + unfold exec, resume_game, bind, get.
      destruct (GameState_eqb _ _); exact H.
    + now apply sane_rounds_process_actions.
    + unfold sane_rounds in *. simpl. lia.
Qed.

(** In every state that a sequence of operations reaches from the initial
    state, the round time is 180 seconds, the number of rounds is 3, and the
    round counter is at least 1. *)
Theorem rounds_stay_sane (ops : list operation) :
  round_time (run_all ops init) = 180 /\
  max_rounds (run_all ops init) = 3 /\
  1 <= current_round (run_all ops init).
Proof. exact (sane_rounds_reachable ops). Qed.


(** ** The array of a pose *)

Lemma length_set_row (i : nat) (r : Pose.row) (p : Pose.pose_data) :
  List.length (BackendPose.set_row i r p) = List.length p.
Proof.
  revert i. induction p as [| r0 p IH]; intros i; simpl; [reflexivity|].
  destruct i; simpl; [reflexivity | now rewrite IH].
Qed.

Lemma at_index_set_row (i j : nat) (r : Pose.row) (p : Pose.pose_data) :
  (i < List.length p)%nat ->
  Pose.at_index (BackendPose.set_row i r p) j
  = if Nat.eqb i j then r else Pose.at_index p j.
Proof.
  unfold Pose.at_index. revert i j.
  induction p as [| r0 p IH]; intros i j Hi; simpl in Hi; [lia|].
  destruct i, j; simpl; try reflexivity.
  apply IH. lia.
Qed.

Lemma normalize_loop_length (kps : list BackendPose.keypoint)
  (normalized p : Pose.pose_data) :
  BackendPose.normalize_loop kps normalized = Some p ->
  List.length p = List.length normalized.
Proof.
  revert normalized. induction kps as [| kp kps IH]; intros n H; simpl in H.
  - now injection H as <-.
  - destruct (BackendPose.key_x kp), (BackendPose.key_y kp),
      (BackendPose.key_confidence kp); try (now apply IH).
    cbn zeta in H. destruct (BackendPose.in_range _); [|now apply IH].
    destruct (match BackendPose.key_index kp with
              | Some i => i
              | None => BackendPose.IntIndex 0
              end) as [i | fidx]; simpl in H; [|discriminate].
    rewrite (IH _ H). apply length_set_row.
Qed.

Lemma normalize_loop_app (kps kps' : list BackendPose.keypoint)
  (normalized : Pose.pose_data) :
  BackendPose.normalize_loop (kps ++ kps') normalized
  = match BackendPose.normalize_loop kps normalized with
    | Some p => BackendPose.normalize_loop kps' p
    | None => None
    end.
Proof.
  revert normalized. induction kps as [| kp kps IH]; intros n; simpl.
  - reflexivity.
  - destruct (BackendPose.key_x kp), (BackendPose.key_y kp),
      (BackendPose.key_confidence kp); try apply IH.
    cbn zeta. destruct (BackendPose.in_range _); [|apply IH].
    destruct (BackendPose.store _ _ _); [apply IH | reflexivity].
Qed.

Lemma normalize_loop_int_indexed (kps : list BackendPose.keypoint)
  (normalized : Pose.pose_data) :
  Forall int_indexed kps ->
  exists p, BackendPose.normalize_loop kps normalized = Some p.
Proof.
  intros H. revert normalized.
  induction H as [| kp kps [i Hi] _ IH]; intros n; simpl; [eauto|].
  destruct (BackendPose.key_x kp), (BackendPose.key_y kp),
    (BackendPose.key_confidence kp); try apply IH.
  cbn zeta. fold (index_of kp). rewrite Hi.
  destruct (BackendPose.in_range _); apply IH.
Qed.

Lemma length_normalize_keypoints (kps : list BackendPose.keypoint)
  (p : Pose.pose_data) :
  BackendPose._normalize_keypoints kps = Some p -> List.length p = 33%nat.
Proof.
  intros H. apply normalize_loop_length in H. exact H.
Qed.

(** The array that the backend builds from a list of keypoints.  The
    keypoints are taken in order and the call returns an array of 33 rows
    unless an index makes it raise, which an index that is an [int] or is
    missing never does.  The last keypoint of the list wins.  When a
    coordinate or the confidence is missing, or the index is outside of the
    array, it is skipped.  When it is complete and its index is an [int]
    inside of the array, a missing index counting as 0, its row is stored at
    that index and the other rows are those of the list before it.  When it
    is complete and its index is a [float] from [0.0] to below [33.0], the
    assignment raises the [IndexError], and [process_pose] reports no move.
    An error of the list before it ends the call as well. *)
Theorem normalize_keypoints_last_wins (kps : list BackendPose.keypoint)
  (kp : BackendPose.keypoint) :
  (forall p, BackendPose._normalize_keypoints kps = Some p ->
             List.length p = 33%nat) /\
  (Forall int_indexed kps ->
   exists p, BackendPose._normalize_keypoints kps = Some p) /\
  (BackendPose._normalize_keypoints kps = None ->
   BackendPose._normalize_keypoints (kps ++ [kp]) = None) /\
  (forall p,
      BackendPose._normalize_keypoints kps = Some p ->
      (skipped kp ->
       BackendPose._normalize_keypoints (kps ++ [kp]) = Some p) /\
      (forall vx vy vc,
          BackendPose.key_x kp = Some vx ->
          BackendPose.key_y kp = Some vy ->
          BackendPose.key_confidence kp = Some vc ->
          (forall i,
              index_of kp = BackendPose.IntIndex i -> 0 <= i < 33 ->
              exists p',
                BackendPose._normalize_keypoints (kps ++ [kp]) = Some p' /\
                forall j,
                  Pose.at_index p' j
                  = if Nat.eqb (Z.to_nat i) j then (vx, vy, vc)
                    else Pose.at_index p j) /\
          (forall f,
              index_of kp = BackendPose.FloatIndex f ->
              F64.leb F64.zero f = true ->
              F64.ltb f (F64.of_int 33) = true ->
              BackendPose._normalize_keypoints (kps ++ [kp]) = None /\
              forall clock,
                BackendPose.process_pose true (kps ++ [kp]) clock = []))).
Proof.
  split; [apply length_normalize_keypoints|].
  split; [apply normalize_loop_int_indexed|].
  unfold BackendPose.process_pose, BackendPose._normalize_keypoints.
  rewrite normalize_loop_app.
  split; [intros ->; reflexivity|].
  intros p Hp. rewrite Hp. cbn [BackendPose.normalize_loop].
  fold (index_of kp). split.
  - intros Hskip. unfold skipped in Hskip.
    destruct (BackendPose.key_x kp) as [vx|]; [|reflexivity].
    destruct (BackendPose.key_y kp) as [vy|]; [|reflexivity].
    destruct (BackendPose.key_confidence kp) as [vc|]; [|reflexivity].
    cbn zeta.
    destruct Hskip as [H | [H | [H | H]]]; try discriminate.
    now rewrite H.
  - intros vx vy vc Hx Hy Hc. rewrite Hx, Hy, Hc. cbn zeta. split.
    + intros i Hi Hrange. rewrite Hi. cbn [BackendPose.in_range].
      assert (E : (0 <=? i) && (i <? 33) = true).
      { apply andb_true_iff. split; [apply Z.leb_le | apply Z.ltb_lt]; lia. }
      rewrite E. cbn [BackendPose.store]. eexists. split; [reflexivity|].
      intros j. apply at_index_set_row.
      rewrite (length_normalize_keypoints kps p Hp). lia.
    + intros f Hf H0 H33. rewrite Hf. cbn [BackendPose.in_range].
      rewrite H0, H33. cbn [andb BackendPose.store negb].
      split; [reflexivity | intros clock; reflexivity].
Qed.

(** On keypoints that have all of their keys, with the [int] indices that
    the standalone classifier gives them, the backend builds without an
    error the same array as the standalone classifier. *)
Theorem keypoint_arrays_agree (kps : list StandalonePose.keypoint) :
  BackendPose._normalize_keypoints (map complete kps)
  = Some (StandalonePose._keypoints_to_array kps).
Proof.
  unfold StandalonePose._keypoints_to_array, BackendPose._normalize_keypoints.
  generalize Pose.zeros.
  induction kps as [| kp kps IH]; intros acc; simpl; [reflexivity|].
  destruct ((0 <=? StandalonePose.key_index kp)
            && (StandalonePose.key_index kp <? 33)); apply IH.
Qed.

(** When the detector is not ready the backend reports no move, whatever
    the keypoints are; and when it is ready it reports no move for an empty
    list of keypoints, the array being all zeros. *)
Theorem process_pose_not_ready_or_empty
  (keypoints : list BackendPose.keypoint) (clock : nat -> float) :
  BackendPose.process_pose false keypoints clock = [] /\
  BackendPose.process_pose true [] clock = [].
Proof. split; [reflexivity | vm_compute; reflexivity]. Qed.

(** ** The extension of an arm *)

Lemma sign_clear_not_negative (x : float) :
  F64.sign_clear x = true -> not_negative x.
Proof.
  unfold not_negative. destruct x as [s | s | | s m e]; simpl;
    try reflexivity; intros H; apply negb_true_iff in H; now subst.
Qed.

Lemma sqrt_not_negative (x : float) : not_negative (F64.sqrt x).
Proof.
  unfold F64.sqrt, SFsqrt.
  destruct x as [s | s | | s m e]; try reflexivity.
  - destruct s; reflexivity.
  - destruct s; [reflexivity|].
    destruct (SFsqrt_core_binary F64.prec F64.emax (Z.pos m) e) as [[mz ez] lz].
    apply sign_clear_not_negative, F64Facts.binary_round_aux_sign_clear.
Qed.

Lemma div_not_negative (a b : float) :
  not_negative a -> F64.gtb b F64.zero = true -> not_negative (F64.div a b).
Proof.
  unfold not_negative, F64.gtb, F64.div, SFdiv.
  destruct a as [sa | sa | | sa ma ea]; destruct b as [sb | sb | | sb mb eb];
    try destruct sa; try destruct sb; simpl; try reflexivity;
    try discriminate; intros _ _.
  destruct (SFdiv_core_binary F64.prec F64.emax (Z.pos ma) ea (Z.pos mb) eb)
    as [[mz ez] lz].
  apply sign_clear_not_negative, F64Facts.binary_round_aux_sign_clear.
Qed.

Lemma min_one_not_above (x : float) :
  F64.gtb (F64.min x F64.one) F64.one = false.
Proof.
  unfold F64.min, F64.gtb.
  destruct (F64.ltb F64.one x) eqn:E; [reflexivity | exact E].
Qed.

Lemma min_one_not_negative (x : float) :
  not_negative x -> not_negative (F64.min x F64.one).
Proof.
  unfold F64.min. destruct (F64.ltb F64.one x); [reflexivity | auto].
Qed.

Lemma sub_self_zero_or_nan (x : float) : zero_or_nan (F64.sub x x).
Proof.
  unfold zero_or_nan, F64.sub, SFsub.
  destruct x as [s | s | | s m e].
  - right. destruct s; eauto.
  - left. destruct s; reflexivity.
  - now left.
  - right. rewrite Z.sub_diag. simpl. eauto.
Qed.

Lemma mul_zero_or_nan (a b : float) :
  zero_or_nan a -> zero_or_nan b -> zero_or_nan (F64.mul a b).
Proof.
  unfold zero_or_nan. intros [-> | [sa ->]] [-> | [sb ->]]; simpl; eauto.
Qed.

Lemma add_zero_or_nan (a b : float) :
  zero_or_nan a -> zero_or_nan b -> zero_or_nan (F64.add a b).
Proof.
  unfold zero_or_nan. intros [-> | [sa ->]] [-> | [sb ->]]; simpl; eauto.
  right. destruct sa, sb; eauto.
Qed.

Lemma fma_zero_or_nan (a b : float) :
  zero_or_nan a -> zero_or_nan b -> zero_or_nan (F64.fma a a b).
Proof.
  unfold zero_or_nan. intros [-> | [sa ->]] [-> | [sb ->]]; simpl; eauto.
  right. destruct sa, sb; simpl; eauto.
Qed.

Lemma sqrt_zero_or_nan (a : float) :
  zero_or_nan a -> zero_or_nan (F64.sqrt a).
Proof. unfold zero_or_nan. intros [-> | [sa ->]]; simpl; eauto. Qed.

Lemma dist_self (a b : Pose.row) :
  Pose.x a = Pose.x b -> Pose.y a = Pose.y b -> zero_or_nan (Pose.dist a b).
Proof.
  intros Hx Hy. unfold Pose.dist, Pose.norm2. rewrite Hx, Hy.
  apply sqrt_zero_or_nan, fma_zero_or_nan;
    [|apply mul_zero_or_nan]; apply sub_self_zero_or_nan.
Qed.

Lemma zero_or_nan_not_positive (x : float) :
  zero_or_nan x -> F64.gtb x F64.zero = false.
Proof. intros [-> | [s ->]]; reflexivity. Qed.

(** The extension of an arm is never above [1.0] and never below [0.0],
    whatever the three points are, and it is exactly [0.0] when the wrist,
    the elbow and the shoulder are at the same place. *)
Theorem arm_extension_range (wrist elbow shoulder : Pose.row) :
  let r := BackendPose._calculate_arm_extension wrist elbow shoulder in
  F64.gtb r F64.one = false /\
  F64.ltb r F64.zero = false /\
  (Pose.x wrist = Pose.x elbow -> Pose.y wrist = Pose.y elbow ->
   Pose.x elbow = Pose.x shoulder -> Pose.y elbow = Pose.y shoulder ->
   r = F64.zero).
Proof.
  cbn zeta. unfold BackendPose._calculate_arm_extension. cbn zeta.
  split; [|split].
  - destruct (F64.gtb _ F64.zero); [apply min_one_not_above | reflexivity].
  - destruct (F64.gtb _ F64.zero) eqn:E; [|reflexivity].
    apply min_one_not_negative, div_not_negative; [|exact E].
    apply sqrt_not_negative.
  - intros Hx1 Hy1 Hx2 Hy2.
    rewrite zero_or_nan_not_positive; [reflexivity|].
    apply add_zero_or_nan; now apply dist_self.
Qed.

(** ** What the backend records *)

Lemma detect_loop_recorded (p : Pose.pose_data) (clock : nat -> float)
  (moves : list (string * (Pose.pose_data -> float))) :
  forall acc,
    map untimed (BackendPose.detect_loop moves p clock acc)
    = (map untimed acc ++ recorded p moves F64.f0_5)%list.
Proof.
  unfold recorded.
  induction moves as [| [nm det] moves IH]; intros acc; simpl.
  - now rewrite app_nil_r.
  - rewrite IH. destruct (F64.gtb (det p) F64.f0_5); simpl.
    + rewrite map_app, <- app_assoc. reflexivity.
    + reflexivity.
Qed.

Lemma backend_detector_not_above_one (p : Pose.pose_data)
  (m : string * (Pose.pose_data -> float)) :
  In m BackendPose.boxing_moves -> F64.gtb (snd m p) F64.one = false.
Proof.
  unfold BackendPose.boxing_moves. simpl.
  intros [<- | [<- | [<- | [<- | [<- | [<- | [<- | []]]]]]]]; cbn [snd].
  - unfold BackendPose._detect_jab. cbn zeta.
    destruct (_ && _); [apply min_one_not_above | reflexivity].
  - unfold BackendPose._detect_cross. cbn zeta.
    destruct (_ && _); [apply min_one_not_above | reflexivity].
  - unfold BackendPose._detect_hook. cbn zeta.
    destruct (_ || _); reflexivity.
  - unfold BackendPose._detect_uppercut. cbn zeta.
    destruct (_ || _); reflexivity.
  - unfold BackendPose._detect_block. cbn zeta.
    destruct (_ && _); [reflexivity|]. destruct (_ || _); reflexivity.
  - unfold BackendPose._detect_dodge. cbn zeta.
    destruct (_ || _); reflexivity.
  - unfold BackendPose._detect_guard. cbn zeta.
    destruct (_ && _); reflexivity.
Qed.

Lemma detect_loop_reports (p : Pose.pose_data) (clock : nat -> float) :
  map untimed (BackendPose.detect_loop BackendPose.boxing_moves p clock [])
  = recorded p BackendPose.boxing_moves F64.f0_5 /\
  Forall (fun d =>
            F64.gtb (Pose.confidence d) F64.f0_5 = true /\
            F64.gtb (Pose.confidence d) F64.one = false /\
            exists mt, MoveType_of_value (Pose.move d) = Some mt)
         (BackendPose.detect_loop BackendPose.boxing_moves p clock []).
Proof.
  assert (Hrec := detect_loop_recorded p clock BackendPose.boxing_moves []).
  simpl map at 2 in Hrec. simpl app in Hrec.
  split; [exact Hrec|].
  apply Forall_forall. intros d Hd.
  assert (Hin : In (untimed d) (recorded p BackendPose.boxing_moves F64.f0_5))
    by (rewrite <- Hrec; now apply in_map).
  unfold recorded in Hin. apply in_map_iff in Hin.
  destruct Hin as (m & Hm & Hin). apply filter_In in Hin.
  destruct Hin as [Hin Hgt].
  unfold untimed in Hm. injection Hm as Hname Hconf.
  rewrite <- Hconf, <- Hname. split; [exact Hgt|].
  split; [now apply backend_detector_not_above_one|].
  unfold BackendPose.boxing_moves in Hin. simpl in Hin.
  destruct Hin as [<- | [<- | [<- | [<- | [<- | [<- | [<- | []]]]]]]];
    cbn [fst]; eexists; reflexivity.
Qed.

(** The moves that the backend reports for a pose are the moves of its
    table whose detector is above [0.5], in the order of the table and each
    one once at most; every reported confidence is above [0.5] and not
    above [1.0], and every reported name is a value of the enumeration of
    the engine. *)
Theorem backend_reports (p : Pose.pose_data) (clock : nat -> float) :
  let detected :=
    BackendPose.detect_loop BackendPose.boxing_moves p clock [] in
  map untimed detected = recorded p BackendPose.boxing_moves F64.f0_5 /\
  Forall (fun d =>
            F64.gtb (Pose.confidence d) F64.f0_5 = true /\
            F64.gtb (Pose.confidence d) F64.one = false /\
            exists mt, MoveType_of_value (Pose.move d) = Some mt)
         detected.
Proof. exact (detect_loop_reports p clock). Qed.

(** ** From the classifier to the engine *)

Lemma check_game_conditions_returns (t1 t2 : float) (g : BoxingGame) :
  exists g', _check_game_conditions t1 t2 g = (Ret tt, g').
Proof.
  unfold _check_game_conditions, bind, get.
  destruct (find _ _); [eexists; reflexivity|].
  destruct (game_start_time g) as [start|]; [|eexists; reflexivity].
  destruct (F64.truthy start); [|eexists; reflexivity].
  destruct (F64.geb _ _); [|eexists; reflexivity].
  unfold _handle_round_end, bind, get.
  destruct (2 <=? _).
  - destruct (sort_reverse _) as [| [w ?] ?]; cbn;
      destruct (_ <? _); eexists; reflexivity.
  - cbn. destruct (_ <? _); eexists; reflexivity.
Qed.

Lemma process_batch_recognised (t : float) (actions : list action_data) :
  Forall (fun a => forall mv, key_move a = Some mv ->
                              MoveType_of_value mv <> None) actions ->
  forall g v,
    fst (process_batch t actions g)
    <> Raise (ValueError_not_a_valid_MoveType v).
Proof.
  induction 1 as [| a actions Ha _ IH]; intros g v; simpl; [discriminate|].
  unfold bind.
  destruct (process_action_data t a g) as [[[] | e] g'] eqn:E.
  - apply IH.
  - cbn [fst]. unfold process_action_data in E.
    destruct (key_move a) as [mv|]; [|discriminate].
    destruct (key_confidence a) as [c|]; [|discriminate].
    destruct (process_single_action_outcome _ _ _ _ E)
      as [H | [[Hn H] | [H | H]]]; try congruence.
    cbn [move_type] in Hn. now destruct (Ha mv eq_refl).
Qed.

Lemma process_batch_unknown_actor (t : float) (actions : list action_data)
  (g : BoxingGame) :
  Forall (fun a => dict_mem (actor_of a) (players g) = false) actions ->
  process_batch t actions g = (Ret tt, g).
Proof.
  induction 1 as [| a actions Ha _ IH]; simpl; [reflexivity|].
  unfold bind, process_action_data.
  destruct (key_move a) as [mv|]; [|exact IH].
  destruct (key_confidence a) as [c|]; [|exact IH].
  unfold _process_single_action, bind, get. cbn [player_id].
  fold (actor_of a). rewrite Ha. exact IH.
Qed.

(** The moves that the classifier of the backend detects, handed to the
    engine as the endpoints do: every detection is attributed to
    ['player1'] and carries a move of the enumeration, so the call never
    raises the error of an invalid move; and when no player is registered as
    ['player1'] the detections are dropped, the call being the one of an
    empty batch. *)
Theorem detections_reach_the_engine (is_ready : bool)
  (keypoints : list BackendPose.keypoint) (clock : nat -> float)
  (t0 t1 t2 : float) (g : BoxingGame) :
  Forall (fun a => actor_of a = "player1")
         (map as_action (BackendPose.process_pose is_ready keypoints clock)) /\
  (forall v, fst (detect_pose is_ready keypoints clock t0 t1 t2 g)
             <> Raise (ValueError_not_a_valid_MoveType v)) /\
  (dict_mem "player1" (players g) = false ->
   detect_pose is_ready keypoints clock t0 t1 t2 g
   = process_actions t0 t1 t2 [] g).
Proof.
  assert (Hdet : Forall (fun d => exists mt,
                    MoveType_of_value (Pose.move d) = Some mt)
                   (BackendPose.process_pose is_ready keypoints clock)).
  { unfold BackendPose.process_pose. destruct is_ready; [|constructor].
    cbn [negb].
    destruct (BackendPose._normalize_keypoints keypoints) as [p|];
      [|constructor].
    destruct (detect_loop_reports p clock) as [_ H].
    eapply Forall_impl; [|exact H]. cbn beta. tauto. }
  split; [|split].
  - apply Forall_forall. intros a Ha. apply in_map_iff in Ha.
    destruct Ha as (d & <- & _). reflexivity.
  - intros v.
    assert (Hrec : forall g0 v0,
              fst (process_batch t0
                     (map as_action
                        (BackendPose.process_pose is_ready keypoints clock))
                     g0)
              <> Raise (ValueError_not_a_valid_MoveType v0)).
    { apply process_batch_recognised.
      apply Forall_forall. intros a Ha. apply in_map_iff in Ha.
      destruct Ha as (d & <- & Hd). rewrite Forall_forall in Hdet.
      destruct (Hdet d Hd) as [mt Hmt].
      intros mv Hmv. cbn in Hmv. injection Hmv as <-. congruence. }
    unfold detect_pose, process_actions, bind, get, get_state.
    destruct (negb _); [discriminate|].
    unfold modify at 1.
    destruct (process_batch t0 _ _) as [[[] | e] g1] eqn:E.
    + destruct (check_game_conditions_returns t1 t2 g1) as [g2 ->].
      discriminate.
    + cbn [fst]. intros He. injection He as ->.
      apply (Hrec (set_last_update_time (Some t0) g) v).
      now rewrite E.
  - intros Hmem. unfold detect_pose, process_actions, bind, get, get_state.
    destruct (negb _); [reflexivity|].
    unfold modify. cbn [process_batch].
    rewrite process_batch_unknown_actor; [reflexivity|].
    apply Forall_forall. intros a Ha. apply in_map_iff in Ha.
    destruct Ha as (d & <- & _). exact Hmem.
Qed.

(** ** Block and hook *)

Lemma ltb_asymmetric (a b : float) :
  F64.ltb a b = true -> F64.ltb b a = false.
Proof.
  unfold F64.ltb, SFltb, SFcompare.
  destruct a as [sa | sa | | sa ma ea]; destruct b as [sb | sb | | sb mb eb];
    try destruct sa; try destruct sb; try reflexivity; try discriminate;
    rewrite (Z.compare_antisym ea eb);
    destruct (Z.compare ea eb); simpl; try reflexivity; try discriminate;
    rewrite (Pos.compare_cont_spec mb ma), (Pos.compare_cont_spec ma mb);
    rewrite (Pos.compare_antisym ma mb);
    destruct (Pos.compare ma mb); simpl; try reflexivity; discriminate.
Qed.

(** A pose that the classifier takes for a full block, with the confidence
    [0.9], is never taken for a hook: both wrists are above their shoulder,
    and a hook needs a wrist below its shoulder. *)
Theorem full_block_is_no_hook (p : Pose.pose_data) :
  BackendPose._detect_block p = F64.f0_9 ->
  BackendPose._detect_hook p = F64.zero.
Proof.
  unfold BackendPose._detect_block, BackendPose._detect_hook. cbn zeta.
  destruct (F64.ltb (Pose.y (Pose.at_index p Pose.left_wrist))
                    (Pose.y (Pose.at_index p Pose.left_shoulder))) eqn:El;
    destruct (F64.ltb (Pose.y (Pose.at_index p Pose.right_wrist))
                      (Pose.y (Pose.at_index p Pose.right_shoulder))) eqn:Er;
    cbn [andb orb].
  - intros _. unfold F64.gtb.
    rewrite (ltb_asymmetric _ _ El), (ltb_asymmetric _ _ Er). reflexivity.
  - destruct (F64.ltb _ F64.f0_3); cbn [andb orb]; discriminate.
  - destruct (F64.ltb _ F64.f0_3); cbn [andb orb]; discriminate.
  - discriminate.
Qed.

(** ** Reset, the end of a match and the table of scores *)

Lemma run_all_app (ops ops' : list operation) (g : BoxingGame) :
  run_all (ops ++ ops') g = run_all ops' (run_all ops g).
Proof. unfold run_all. apply fold_left_app. Qed.

(** [reset] after any sequence of operations gives back the initial state,
    field by field; and a match without players cannot be started:
    [start_game] raises and changes nothing, the phase included. *)
Theorem reset_gives_the_initial_state (ops : list operation) :
  run_all (ops ++ [Reset]) init = init /\
  (forall now g, players g = [] ->
                 start_game now g
                 = (Raise ValueError_need_at_least_1_player, g)).
Proof.
  split.
  - rewrite run_all_app.
    destruct (sane_rounds_reachable ops) as (Hrt & Hmr & _).
    destruct (run_all ops init) as [s d rt cr mr st lu].
    simpl in Hrt, Hmr. subst rt mr. reflexivity.
  - intros now g Hp. unfold start_game, bind, get. rewrite Hp. reflexivity.
Qed.

Lemma finished_step (o : operation) (g : BoxingGame) :
  state g = FINISHED -> leaves_finished o = true -> run o g = g.
Proof.
  intros Hs Ho. destruct g as [s d rt cr mr st lu]. simpl in Hs. subst s.
  destruct o; try discriminate; reflexivity.
Qed.

(** A finished match is frozen for the moves that arrive: from a state whose
    phase is finished, any sequence of [process_actions], [resume_game],
    [get_state] and [end_game] leaves the state as it is, whatever the
    batches hold. *)
Theorem finished_match_is_frozen (g : BoxingGame) (ops : list operation) :
  state g = FINISHED -> forallb leaves_finished ops = true ->
  run_all ops g = g.
Proof.
  intros Hs. unfold run_all.
  induction ops as [| o ops IH]; intros Hops; [reflexivity|].
  simpl in Hops. apply andb_prop in Hops as [Ho Hops].
  simpl. rewrite (finished_step o g Hs Ho). now apply IH.
Qed.

Lemma score_set_fresh (k : string) (v : Z) (d : list (string * Z)) :
  ~ In k (map fst d) -> score_set k v d = (d ++ [(k, v)])%list.
Proof.
  induction d as [| [k' v'] d IH]; intros Hn; [reflexivity|].
  simpl in *. destruct (String.eqb_spec k' k) as [-> | _].
  - exfalso. apply Hn. now left.
  - f_equal. apply IH. intros Hin. apply Hn. now right.
Qed.

Lemma get_score_fold (d : dict) (acc : list (string * Z)) :
  NoDup (map fst acc ++ keys d) ->
  Forall (fun kv => id (snd kv) = fst kv) d ->
  fold_left (fun acc p => score_set (id p) (score p) acc) (values d) acc
  = (acc ++ map (fun kv => (fst kv, score (snd kv))) d)%list.
Proof.
  revert acc. induction d as [| [k p] d IH]; intros acc Hnd Hid.
  - simpl. now rewrite app_nil_r.
  - inversion Hid as [| ? ? Hk Hid']; subst. simpl in Hk. subst k.
    simpl. rewrite score_set_fresh.
    + rewrite IH; [now rewrite <- app_assoc | | exact Hid'].
      rewrite map_app. simpl. rewrite <- app_assoc. exact Hnd.
    + simpl in Hnd. apply NoDup_remove_2 in Hnd.
      intros Hin. apply Hnd. apply in_or_app. now left.
Qed.

(** The table of [get_score] has one entry for each registered player, in
    the order of registration, under the key of the player, in every state
    that a sequence of operations reaches from the initial state: no two
    players share the id that the table is keyed by. *)
Theorem get_score_lists_every_player (ops : list operation) :
  get_score (run_all ops init)
  = map (fun kv => (fst kv, score (snd kv))) (players (run_all ops init)).
Proof.
  assert (H : well_keyed (run_all ops init)).
  { apply (run_all_invariant well_keyed).
    - split; constructor.
    - intros o g. apply well_keyed_run. }
  destruct H as [Hnd Hid]. unfold get_score.
  now rewrite get_score_fold.
Qed.
(** ** The theorems at sample states *)

Lemma knockout_finishes_match_witness :
  exists g2,
    process_actions (F64.of_int 2) (F64.of_int 2) (F64.of_int 2)
      knockout_batch two_player_game = (Ret g2, g2) /\
    state g2 = FINISHED /\
    map (fun p => (health p, score p)) (values (players g2))
    = [(0, 0); (100, 150)].
Proof.
  assert (H1 : state two_player_game = PLAYING) by (vm_compute; reflexivity).
  assert (H2 : process_batch (F64.of_int 2) knockout_batch
                 (set_last_update_time (Some (F64.of_int 2)) two_player_game)
               = (Ret tt, after_batch (F64.of_int 2) knockout_batch
                            two_player_game))
    by (vm_compute; reflexivity).
  assert (H3 : find (fun p => health p <=? 0)
                 (values (players (after_batch (F64.of_int 2) knockout_batch
                                     two_player_game)))
               = Some (mkPlayer "P1" "Al" 0 0 None None false false))
    by (vm_compute; reflexivity).
  destruct (knockout_finishes_match two_player_game
              (after_batch (F64.of_int 2) knockout_batch two_player_game)
              (F64.of_int 2) (F64.of_int 2) (F64.of_int 2) knockout_batch
              (mkPlayer "P1" "Al" 0 0 None None false false) H1 H2 H3)
    as (g2 & Hrun & Hstate & _).
  exists g2. split; [exact Hrun|]. split; [exact Hstate|].
  vm_compute in Hrun. injection Hrun as <-. reflexivity.
Defined.

(** C4 does not hold with one player: the match is playing, nobody is
    knocked out and 199 seconds have passed, so the round ends and the round
    counter goes up; the only player, who is the top of the ranking, has 0
    points before and 0 points after, not 25. *)
Lemma round_end_without_bonus :
  state solo_game = PLAYING /\
  map score (values (players solo_game)) = [0] /\
  find (fun p => health p <=? 0) (values (players solo_game)) = None /\
  game_start_time solo_game = Some F64.one /\
  F64.geb (F64.sub (F64.of_int 200) F64.one)
          (F64.of_int (round_time solo_game)) = true /\
  let g2 := exec (process_actions (F64.of_int 200) (F64.of_int 200)
                    (F64.of_int 200) []) solo_game in
  current_round solo_game = 1 /\ current_round g2 = 2 /\
  map score (values (players g2)) = [0] /\
  map score (values (players g2)) <> [25].
Proof.
  vm_compute. repeat (split; [reflexivity|]). discriminate.
Qed.

Lemma round_ends_at_time_limit_witness :
  exists g2 winner,
    process_actions (F64.of_int 200) (F64.of_int 200) (F64.of_int 201)
      [event "P1" "jab" F64.f0_9] two_player_game = (Ret g2, g2) /\
    winner = Some 0%nat /\
    current_round g2 = 2 /\
    map (fun p => (health p, score p)) (values (players g2))
    = [(100, 34); (100, 0)].
Proof.
  set (g1 := after_batch (F64.of_int 200) [event "P1" "jab" F64.f0_9]
                          two_player_game).
  assert (H1 : state two_player_game = PLAYING) by (vm_compute; reflexivity).
  assert (H2 : process_batch (F64.of_int 200) [event "P1" "jab" F64.f0_9]
                 (set_last_update_time (Some (F64.of_int 200))
                                       two_player_game)
               = (Ret tt, g1)) by (vm_compute; reflexivity).
  assert (H3 : find (fun p => health p <=? 0) (values (players g1)) = None)
    by (vm_compute; reflexivity).
  assert (H4 : game_start_time g1 = Some F64.one)
    by (vm_compute; reflexivity).
  assert (H5 : F64.truthy F64.one = true) by (vm_compute; reflexivity).
  assert (H6 : F64.geb (F64.sub (F64.of_int 200) F64.one)
                       (F64.of_int (round_time g1)) = true)
    by (vm_compute; reflexivity).
  destruct (round_ends_at_time_limit two_player_game g1
              (F64.of_int 200) (F64.of_int 200) (F64.of_int 201)
              [event "P1" "jab" F64.f0_9] F64.one H1 H2 H3 H4 H5 H6)
    as (g2 & winner & Hrun & Hround & Hwin & _).
  exists g2, winner. split; [exact Hrun|].
  vm_compute in Hrun. injection Hrun as <-.
  split.
  - destruct winner as [i|]; [|vm_compute in Hwin; lia].
    destruct Hwin as (_ & w & Hn & _ & Hfirst).
    assert (H0 : nth_error (values (players g1)) 0
                 = Some (mkPlayer "P1" "Al" 100 9 (Some "jab")
                                  (Some (F64.of_int 200)) false false))
      by (vm_compute; reflexivity).
    specialize (Hfirst 0%nat _ H0).
    destruct i as [| i]; [reflexivity|]. exfalso.
    assert (Hw : ranks_at_most w
                   (mkPlayer "P1" "Al" 100 9 (Some "jab")
                             (Some (F64.of_int 200)) false false)).
    { vm_compute in Hn. destruct i as [| i].
      - injection Hn as <-. unfold ranks_at_most. simpl. lia.
      - destruct i; discriminate. }
    specialize (Hfirst Hw). lia.
  - split; reflexivity.
Defined.

Lemma failures_and_the_state_witness :
  start_game F64.one init = (Raise ValueError_need_at_least_1_player, init) /\
  process_actions (F64.of_int 2) (F64.of_int 2) (F64.of_int 2)
    batch_with_kick two_player_game
  = (Raise (ValueError_not_a_valid_MoveType "kick"),
     after_batch (F64.of_int 2) [event "P1" "jab" F64.f0_9] two_player_game).
Proof.
  set (g1 := after_batch (F64.of_int 2) [event "P1" "jab" F64.f0_9]
                          two_player_game).
  assert (H1 : state two_player_game = PLAYING) by (vm_compute; reflexivity).
  assert (H2 : process_batch (F64.of_int 2) [event "P1" "jab" F64.f0_9]
                 (set_last_update_time (Some (F64.of_int 2)) two_player_game)
               = (Ret tt, g1)) by (vm_compute; reflexivity).
  assert (H3 : MoveType_of_value "kick" = None) by (vm_compute; reflexivity).
  assert (H4 : dict_mem (actor_of (event "P1" "kick" F64.f0_9)) (players g1)
               = true) by (vm_compute; reflexivity).
  destruct (failures_and_the_state init F64.one two_player_game g1
              (F64.of_int 2) (F64.of_int 2) (F64.of_int 2)
              [event "P1" "jab" F64.f0_9] []
              (event "P1" "kick" F64.f0_9) "kick" F64.f0_9
              H1 H2 eq_refl eq_refl H3)
    as (Hstart & Hraise & _).
  split; [exact (Hstart eq_refl) | exact (Hraise H4)].
Defined.

Lemma move_strings_are_matched_exactly_witness :
  fst (_process_single_action
         (mkGameAction "P2" "dodge" F64.one (F64.of_int 2)) two_player_game)
  = Ret tt /\
  posture_of "P2"
    (exec (_process_single_action
             (mkGameAction "P2" "dodge" F64.one (F64.of_int 2)))
          two_player_game)
  = Some (false, true).
Proof.
  assert (H1 : dict_mem "P2" (players two_player_game) = true)
    by (vm_compute; reflexivity).
  destruct (move_strings_are_matched_exactly two_player_game
              (mkGameAction "P2" "dodge" F64.one (F64.of_int 2)) H1)
    as (_ & _ & H).
  destruct (H DODGE eq_refl) as (_ & _ & Hdef).
  exact (Hdef eq_refl).
Defined.

Lemma scores_never_decrease_witness :
  scores_not_below scored_game
    (run (ProcessActions (F64.of_int 3) (F64.of_int 3) (F64.of_int 3)
            [event "P2" "hook" F64.one]) scored_game).
Proof.
  apply (scores_never_decrease
           (ProcessActions (F64.of_int 3) (F64.of_int 3) (F64.of_int 3)
              [event "P2" "hook" F64.one]) scored_game).
  exact I.
Defined.


Lemma registering_again_replaces_witness :
  exists g',
    add_player "P1" "Al" scored_game
    = (Ret (mkPlayer "P1" "Al" 100 0 None None false false), g') /\
    option_map score (dict_get "P1" (players scored_game)) = Some 9 /\
    option_map score (dict_get "P1" (players g')) = Some 0 /\
    keys (players g') = ["P1"; "P2"].
Proof.
  assert (H1 : dict_get "P1" (players scored_game)
               = Some (mkPlayer "P1" "Al" 100 9 (Some "jab")
                                (Some (F64.of_int 2)) false false))
    by (vm_compute; reflexivity).
  destruct (registering_again_replaces "P1" "Al" scored_game _ H1)
    as (g' & Hadd & Hget & Hkeys & _).
  exists g'. split; [exact Hadd|]. split; [now rewrite H1|].
  split; [now rewrite Hget|]. rewrite Hkeys. vm_compute. reflexivity.
Defined.

(** ** Further theorems at sample states *)

Lemma add_player_fresh_then_remove_witness :
  exists g',
    add_player "P3" "Cy" two_player_game
    = (Ret (mkPlayer "P3" "Cy" 100 0 None None false false), g') /\
    keys (players g') = ["P1"; "P2"; "P3"] /\
    remove_player "P3" g' = (Ret true, two_player_game).
Proof.
  assert (H1 : dict_mem "P3" (players two_player_game) = false)
    by (vm_compute; reflexivity).
  destruct (add_player_fresh_then_remove "P3" "Cy" two_player_game H1)
    as (g' & Hadd & Hp & _ & Hrem).
  exists g'. split; [exact Hadd|]. split; [|exact Hrem].
  rewrite Hp. vm_compute. reflexivity.
Defined.

Lemma remove_player_result_witness :
  remove_player "P3" two_player_game = (Ret false, two_player_game) /\
  exists g',
    remove_player "P1" two_player_game = (Ret true, g') /\
    keys (players g') = ["P2"].
Proof.
  destruct (remove_player_result "P3" two_player_game) as [Hun _].
  destruct (remove_player_result "P1" two_player_game) as [_ Hkn].
  assert (H1 : dict_mem "P3" (players two_player_game) = false)
    by (vm_compute; reflexivity).
  assert (H2 : dict_mem "P1" (players two_player_game) = true)
    by (vm_compute; reflexivity).
  split; [exact (Hun H1)|].
  destruct (Hkn H2) as (g' & Hrem & _ & _ & Hkeys & _).
  exists g'. split; [exact Hrem|]. rewrite Hkeys. vm_compute. reflexivity.
Defined.

Lemma start_game_resets_players_witness :
  exists g',
    start_game (F64.of_int 5) scored_game = (Ret g', g') /\
    state g' = PLAYING /\ current_round g' = 1 /\
    nth_error (players g') 0
    = Some ("P1", mkPlayer "P1" "Al" 100 0 None (Some (F64.of_int 2))
                           false false).
Proof.
  assert (H1 : players scored_game <> []) by (vm_compute; discriminate).
  destruct (start_game_resets_players (F64.of_int 5) scored_game H1)
    as (g' & Hrun & Hs & Hr & _ & _ & _ & Hp).
  exists g'. repeat (split; [assumption|]).
  assert (H0 : nth_error (players scored_game) 0
               = Some ("P1", mkPlayer "P1" "Al" 100 9 (Some "jab")
                                      (Some (F64.of_int 2)) false false))
    by (vm_compute; reflexivity).
  rewrite (Hp _ _ _ H0). reflexivity.
Defined.

Lemma process_actions_outside_play_witness :
  process_actions (F64.of_int 2) (F64.of_int 2) (F64.of_int 2)
    batch_with_kick init = (Ret init, init).
Proof.
  apply (process_actions_outside_play init). vm_compute. discriminate.
Defined.

Lemma batch_wears_players_down_witness :
  pointwise worn_down (players two_player_game)
    (players (exec (process_batch (F64.of_int 2) knockout_batch)
                   two_player_game)) /\
  Forall (fun p => 0 <= health p)
    (values (players (exec (process_batch (F64.of_int 2) knockout_batch)
                           two_player_game))).
Proof.
  apply (batch_wears_players_down two_player_game).
  vm_compute. repeat constructor; discriminate.
Defined.

Lemma damage_bounds_witness :
  exists d_neutral d,
    _calculate_damage HOOK F64.one (new_Player "P1" "Al") = Ret d_neutral /\
    _calculate_damage HOOK F64.one
      (set_is_blocking true (new_Player "P2" "Bo")) = Ret d /\
    0 <= d <= d_neutral /\ d_neutral <= move_damage HOOK <= 25.
Proof.
  apply (damage_bounds HOOK F64.one (new_Player "P1" "Al")
           (set_is_blocking true (new_Player "P2" "Bo")));
    vm_compute; reflexivity.
Defined.


Lemma single_player_punch_witness :
  _process_single_action
    (mkGameAction "P1" "uppercut" S754_nan (F64.of_int 2)) solo_game
  = (Ret tt,
     set_players
       (dict_modify "P1"
          (fun p => set_last_move_time (Some (F64.of_int 2))
                      (set_last_move (Some "uppercut") p))
          (players solo_game)) solo_game).
Proof.
  assert (H1 : List.length (players solo_game) = 1%nat)
    by (vm_compute; reflexivity).
  assert (H2 : dict_mem "P1" (players solo_game) = true)
    by (vm_compute; reflexivity).
  destruct (single_player_punch solo_game
              (mkGameAction "P1" "uppercut" S754_nan (F64.of_int 2))
              UPPERCUT H1 H2 eq_refl eq_refl) as [_ H].
  exact H.
Defined.

Lemma opponent_of_two_players_witness :
  option_map fst (_get_opponent "P1" two_player_game) = Some "P2" /\
  option_map fst (_get_opponent "P2" two_player_game) = Some "P1".
Proof.
  assert (H1 : players two_player_game
               = [("P1", mkPlayer "P1" "Al" 100 0 None None false false);
                  ("P2", mkPlayer "P2" "Bo" 100 0 None None false false)])
    by (vm_compute; reflexivity).
  assert (H2 : "P1" <> "P2") by discriminate.
  destruct (opponent_of_two_players two_player_game "P1" "P2" _ _ H1 H2)
    as [Ha Hb].
  rewrite Ha, Hb. split; reflexivity.
Defined.

Lemma quiet_tick_witness :
  process_actions (F64.of_int 2) (F64.of_int 2) (F64.of_int 2)
    [event "P1" "jab" F64.f0_9] two_player_game
  = (Ret scored_game, scored_game).
Proof.
  assert (H1 : state two_player_game = PLAYING) by (vm_compute; reflexivity).
  assert (H2 : process_batch (F64.of_int 2) [event "P1" "jab" F64.f0_9]
                 (set_last_update_time (Some (F64.of_int 2)) two_player_game)
               = (Ret tt, scored_game)) by (vm_compute; reflexivity).
  assert (H3 : find (fun p => health p <=? 0) (values (players scored_game))
               = None) by (vm_compute; reflexivity).
  apply (quiet_tick two_player_game scored_game (F64.of_int 2) (F64.of_int 2)
           (F64.of_int 2) [event "P1" "jab" F64.f0_9] H1 H2 H3).
  vm_compute. right. reflexivity.
Defined.

Lemma normalize_keypoints_last_wins_witness :
  (exists p',
      BackendPose._normalize_keypoints
        [keypoint_at 11 F64.f0_3 F64.f0_5; keypoint_at 11 F64.f0_4 F64.f0_6]
      = Some p' /\
      Pose.at_index p' 11 = (F64.f0_4, F64.f0_6, F64.f0_9)) /\
  BackendPose._normalize_keypoints
    [keypoint_at 11 F64.f0_3 F64.f0_5; float_keypoint_at 15 F64.f0_4 F64.f0_3]
  = None /\
  BackendPose.process_pose true
    [keypoint_at 11 F64.f0_3 F64.f0_5; float_keypoint_at 15 F64.f0_4 F64.f0_3]
    (fun _ => F64.one)
  = [].
Proof.
  assert (Hp : exists p,
             BackendPose._normalize_keypoints
               [keypoint_at 11 F64.f0_3 F64.f0_5] = Some p)
    by (eexists; vm_compute; reflexivity).
  destruct Hp as [p Hp].
  pose proof (proj2 (proj2 (proj2 (normalize_keypoints_last_wins
                [keypoint_at 11 F64.f0_3 F64.f0_5]
                (keypoint_at 11 F64.f0_4 F64.f0_6)))) p Hp) as [_ Hint].
  pose proof (proj2 (proj2 (proj2 (normalize_keypoints_last_wins
                [keypoint_at 11 F64.f0_3 F64.f0_5]
                (float_keypoint_at 15 F64.f0_4 F64.f0_3)))) p Hp)
    as [_ Hfloat].
  split.
  - destruct (proj1 (Hint F64.f0_4 F64.f0_6 F64.f0_9 eq_refl eq_refl eq_refl)
                11 eq_refl ltac:(lia)) as (p' & Hp' & Hrows).
    exists p'. split; [exact Hp' | exact (Hrows 11%nat)].
  - assert (H0 : F64.leb F64.zero (F64.of_int 15) = true)
      by (vm_compute; reflexivity).
    assert (H33 : F64.ltb (F64.of_int 15) (F64.of_int 33) = true)
      by (vm_compute; reflexivity).
    destruct (proj2 (Hfloat F64.f0_4 F64.f0_3 F64.f0_9 eq_refl eq_refl eq_refl)
                (F64.of_int 15) eq_refl H0 H33) as [Hnone Hpose].
    split; [exact Hnone | exact (Hpose (fun _ => F64.one))].
Defined.

Lemma full_block_is_no_hook_witness :
  BackendPose._detect_block block_pose = F64.f0_9 /\
  BackendPose._detect_hook block_pose = F64.zero.
Proof.
  assert (H : BackendPose._detect_block block_pose = F64.f0_9)
    by (vm_compute; reflexivity).
  split; [exact H | exact (full_block_is_no_hook block_pose H)].
Defined.

Lemma finished_match_is_frozen_witness :
  run_all [ProcessActions (F64.of_int 3) (F64.of_int 3) (F64.of_int 3)
             knockout_batch; ResumeGame; GetState; EndGame] ended_game
  = ended_game.
Proof.
  apply (finished_match_is_frozen ended_game); vm_compute; reflexivity.
Defined.
